(** * Transfer coordination core of the librarian: a shallow embedding

    The development follows the Python sources module by module:

    - [ServerStore]   : [server/librarian_server/store.py]
                        ([recommended_store], [complete_upload]);
    - [Search]        : [server/librarian_server/search.py]
                        (standing orders);
    - [Queues]        : [librarian_background/queues.py] together with
                        [librarian_server/logger.py];
    - [RecieveClone]  : [librarian_background/recieve_clone.py];
    - [InstancesApi]  : [librarian_server/api/instances.py].

    Catalog tables are kept in the order a query returns their rows; an ORM
    object is the row itself, so an attribute assignment rewrites the row in
    place.  Python exceptions are values of [exn]; a call either returns or
    raises ([outcome]), and the state reached so far is kept in both cases.
    Uniqueness constraints of the database are not enforced by the tables. *)

From Stdlib Require Import ZArith QArith List String Ascii Bool Lia DecimalString.
From stdpp Require Import base option list gmap strings.
Import ListNotations.
Local Open Scope string_scope.
Local Open Scope Z_scope.

(** ** Python values shared by all modules *)

Inductive exn : Type :=
| ServerError (msg : string)
| NotImplementedError (msg : string)
| NameError (msg : string)
| ValueError (msg : string)
| TypeError (msg : string)
| AttributeError (msg : string)
| LibrarianError (msg : string)
| StoreError (msg : string).

Inductive outcome (A : Type) : Type :=
| Ok (a : A)
| Raise (e : exn).
Arguments Ok {A} a.
Arguments Raise {A} e.

Definition is_ok {A} (r : outcome A) : bool :=
  match r with Ok _ => true | Raise _ => false end.

(** [x is None]. *)
Definition is_none {A} (o : option A) : bool :=
  match o with None => true | Some _ => false end.

(** [str(n)] and ['%d' % n] for a Python [int]. *)
Definition str_of_int (n : Z) : string := NilZero.string_of_int (Z.to_int n).

(** The double quote character, for messages that contain one. *)
Definition dquote : string := String (ascii_of_nat 34) EmptyString.

(** ** Stateful code that may raise

    A computation takes the state and gives an outcome and the state it
    reached; a raised exception keeps every effect that happened before
    it. *)

Definition M (S A : Type) : Type := S -> outcome A * S.

Definition ret {S A} (a : A) : M S A := fun s => (Ok a, s).

Definition raise {S A} (e : exn) : M S A := fun s => (Raise e, s).

Definition bind {S A B} (c : M S A) (k : A -> M S B) : M S B :=
  fun s =>
    match c s with
    | (Ok a, s') => k a s'
    | (Raise e, s') => (Raise e, s')
    end.

Definition gets {S A} (f : S -> A) : M S A := fun s => (Ok (f s), s).

Definition modify {S} (f : S -> S) : M S unit := fun s => (Ok tt, f s).

(** [try: c except e: h e]. *)
Definition try_except {S A} (c : M S A) (h : exn -> M S A) : M S A :=
  fun s =>
    match c s with
    | (Ok a, s') => (Ok a, s')
    | (Raise e, s') => h e s'
    end.

Notation "'letM' x ':=' c 'in' k" := (bind c (fun x => k))
  (at level 10, x name, c at level 100, k at level 200, only parsing).
Notation "'doM' c 'in' k" := (bind c (fun _ => k))
  (at level 10, c at level 100, k at level 200, only parsing).

(** ** server/librarian_server/store.py *)

Module ServerStore.

(** Columns of the [store] table. *)
Record Store : Type := mkStore {
  id : Z;
  name : string;
  ssh_host : string;
  path_prefix : string;
  http_prefix : option string;
  available : bool
}.

(** The reply of [recommended_store]: the [info] dict. *)
Record StoreInfo : Type := mkStoreInfo {
  info_name : string;
  info_ssh_host : string;
  info_path_prefix : string;
  info_available : Z
}.

(** Local variables of the loop of [recommended_store].  [store] is the
    loop variable, which Python leaves bound after the loop (and unbound
    when the loop body never ran). *)
Record ScanState : Type := mkScan {
  most_avail : Z;
  most_avail_store : option Store;
  store : option Store
}.

Definition scan_init : ScanState :=
  {| most_avail := -1; most_avail_store := None; store := None |}.

Section RecommendedStore.

(** [store.get_space_info ()['available']]: the free bytes the store
    reports over SSH ([hera_librarian.store.Store], outside this
    repository's sources). *)
Variable get_space_info_available : Store -> Z.

Definition scan_step (st : ScanState) (s : Store) : ScanState :=
  let avail := get_space_info_available s in
  if most_avail st <? avail
  then {| most_avail := avail; most_avail_store := Some s; store := Some s |}
  else {| most_avail := most_avail st;
          most_avail_store := most_avail_store st;
          store := Some s |}.

Definition scan (q : list Store) : ScanState := fold_left scan_step q scan_init.

Definition msg_nonnegative : string :=
  dquote +:+ "file_size" +:+ dquote +:+ " must be nonnegative".

Definition msg_unable (file_size : Z) : string :=
  "unable to find a store able to hold " +:+ str_of_int file_size +:+ " bytes".

(** [recommended_store]: the outcome, and the stores whose space was
    queried, in query order. *)
Definition recommended_store (stores : list Store) (file_size : Z)
  : outcome StoreInfo * list Store :=
  if file_size <? 0 then (Raise (ServerError msg_nonnegative), [])
  else
    let q := List.filter available stores in
    let st := scan q in
    if (most_avail st <? file_size) || is_none (most_avail_store st)
    then (Raise (ServerError (msg_unable file_size)), q)
    else
      match store st with
      | Some s =>
          (Ok {| info_name := name s;
                 info_ssh_host := ssh_host s;
                 info_path_prefix := path_prefix s;
                 info_available := most_avail st |}, q)
      | None => (Raise (NameError "name 'store' is not defined"), q)
      end.

(** The largest free space among [q], and [-1] when [q] is empty. *)
Definition max_space (q : list Store) : Z :=
  fold_right Z.max (-1) (map get_space_info_available q).

(** The claim of the specification, word for word: the reply describes an
    available store with the largest free space, the least name winning a
    tie. *)
Definition describes (i : StoreInfo) (s : Store) : Prop :=
  info_name i = name s /\ info_ssh_host i = ssh_host s /\
  info_path_prefix i = path_prefix s.

Definition returns_largest_by_name (stores : list Store) (file_size : Z) : Prop :=
  exists i s,
    fst (recommended_store stores file_size) = Ok i /\
    describes i s /\
    In s (List.filter available stores) /\
    get_space_info_available s = max_space (List.filter available stores) /\
    forall s', In s' (List.filter available stores) ->
      get_space_info_available s' = max_space (List.filter available stores) ->
      String.leb (name s) (name s') = true.

End RecommendedStore.

(** *** [complete_upload] *)

(** [os.path.basename] and [os.path.dirname] of [posixpath]: split at the
    last slash. [rsplit p] is [(p[:i], p[i:])] for [i = p.rfind('/') + 1]
    when [p] has a slash. *)
Fixpoint rsplit (p : string) : option (string * string) :=
  match p with
  | EmptyString => None
  | String c r =>
      match rsplit r with
      | Some (h, t) => Some (String c h, t)
      | None =>
          if Ascii.eqb c "/" then Some (String c EmptyString, r) else None
      end
  end.

Fixpoint all_slashes (p : string) : bool :=
  match p with
  | EmptyString => true
  | String c r => Ascii.eqb c "/" && all_slashes r
  end.

Fixpoint rstrip_slashes (p : string) : string :=
  match p with
  | EmptyString => EmptyString
  | String c r =>
      match rstrip_slashes r with
      | EmptyString => if Ascii.eqb c "/" then EmptyString else String c EmptyString
      | r' => String c r'
      end
  end.

Definition basename (p : string) : string :=
  match rsplit p with Some (_, t) => t | None => p end.

Definition dirname (p : string) : string :=
  match rsplit p with
  | Some (h, _) => if all_slashes h then h else rstrip_slashes h
  | None => EmptyString
  end.

(** Rows of the [observation], [file] and [file_instance] tables. The
    Julian date is a float that is only stored. *)
Record Observation : Type := mkObservation {
  obsid : Z;
  start_jd : Q;
  stop_jd : option Q;
  start_lst_hr : option Q
}.

Record File : Type := mkFile {
  file_name : string;
  file_type : string;
  file_obsid : Z;
  file_source : option string;
  file_size : Z;
  file_md5 : string;
  file_create_time : Z
}.

Record FileInstance : Type := mkFileInstance {
  inst_store : Z;
  inst_parent_dirs : string;
  inst_name : string
}.

(** What a store reports about a path: the dict of
    [get_info_for_path], whose keys may be missing. *)
Record PathDict : Type := mkPathDict {
  d_type : option string;
  d_size : option Z;
  d_md5 : option string
}.

(** The catalog (tables keyed by their primary key, [db.session.merge]
    being an upsert) and the disks of the stores, keyed by store name and
    path within the store. *)
Record World : Type := mkWorld {
  stores : list Store;
  observations : gmap Z Observation;
  files : gmap string File;
  instances : gmap (Z * string * string) FileInstance;
  disks : gmap (string * string) PathDict
}.

(** The tables alone. *)
Definition catalog (w : World)
  : list Store * gmap Z Observation * gmap string File *
    gmap (Z * string * string) FileInstance :=
  (stores w, observations w, files w, instances w).

Definition set_disks (f : gmap (string * string) PathDict -> gmap (string * string) PathDict)
  (w : World) : World :=
  {| stores := stores w; observations := observations w; files := files w;
     instances := instances w; disks := f (disks w) |}.

Definition py_repr (x : string) : string := "u'" +:+ x +:+ "'".

(** [Store.get_by_name]. *)
Definition get_by_name (n : string) : M World Store :=
  fun w =>
    match List.filter (fun s => String.eqb (name s) n) (stores w) with
    | [] => (Raise (ServerError ("No such store " +:+ py_repr n)), w)
    | [s] => (Ok s, w)
    | _ :: _ :: _ =>
        (Raise (ServerError
                  ("Internal error: multiple stores with name " +:+ py_repr n)), w)
    end.

(** Modelled from the spec: the store operations ([get_info_for_path],
    [_delete], [_move] of [hera_librarian.store.Store], absent from the
    sources). The probe fails when nothing is staged at the path; deleting
    removes the staged copy; moving puts the staged bytes at their final
    path and leaves nothing behind. *)
Definition get_info_for_path (st : Store) (path : string) : M World PathDict :=
  fun w =>
    match disks w !! (name st, path) with
    | Some d => (Ok d, w)
    | None => (Raise (StoreError ("no such path " +:+ path)), w)
    end.

Definition _delete (st : Store) (path : string) : M World unit :=
  modify (set_disks (delete (name st, path))).

Definition _move (st : Store) (src dst : string) : M World unit :=
  modify (set_disks (fun d =>
    match d !! (name st, src) with
    | Some x => <[(name st, dst) := x]> (delete (name st, src) d)
    | None => d
    end)).

(** [required_arg] of [webutil] on a parsed dict: the value of a key, or
    a [ServerError] when the key is missing. *)
Definition required_arg {A} (v : option A) (key : string) : M World A :=
  match v with
  | Some x => ret x
  | None => raise (ServerError ("required parameter " +:+ dquote +:+ key +:+ dquote +:+ " not provided"))
  end.

(** The arguments of the call once parsed. *)
Record UploadArgs : Type := mkUploadArgs {
  store_name : string;
  size : Z;
  md5 : string;
  arg_obsid : Z;
  arg_start_jd : Q;
  dest_store_path : string;
  create_time_unix : option Z
}.

(** The key of the instance a call is about. *)
Definition instance_key (st : Store) (a : UploadArgs) : Z * string * string :=
  (id st, dirname (dest_store_path a), basename (dest_store_path a)).

Definition stage_path_of (a : UploadArgs) : string :=
  "upload_" +:+ str_of_int (size a) +:+ "_" +:+ md5 a +:+ ".staging".

Definition msg_upload (a : UploadArgs) (what expected observed : string) : string :=
  "cannot complete upload to " +:+ store_name a +:+ ":" +:+ dest_store_path a +:+
  ": expected " +:+ what +:+ " " +:+ expected +:+ "; observed " +:+ observed.

Definition merge_rows (obs : Observation) (f : File) (i : FileInstance) (w : World) : World :=
  {| stores := stores w;
     observations := <[obsid obs := obs]> (observations w);
     files := <[file_name f := f]> (files w);
     instances := <[(inst_store i, inst_parent_dirs i, inst_name i) := i]> (instances w);
     disks := disks w |}.

(** [complete_upload]; [now] is the clock a [File] created without
    [create_time] is stamped with. *)
Definition complete_upload (a : UploadArgs) (sourcename : option string) (now : Z)
  : M World unit :=
  let expected_size := size a in
  let expected_md5 := md5 a in
  let create_time := create_time_unix a in
  letM st := get_by_name (store_name a) in
  let stage_path := stage_path_of a in
  letM info := get_info_for_path st stage_path in
  letM observed_type := required_arg (d_type info) "type" in
  letM observed_size := required_arg (d_size info) "size" in
  letM observed_md5 := required_arg (d_md5 info) "md5" in
  if negb (observed_size =? expected_size)
  then raise (ServerError (msg_upload a "size" (str_of_int expected_size)
                             (str_of_int observed_size)))
  else if negb (String.eqb observed_md5 expected_md5)
  then raise (ServerError (msg_upload a "MD5" expected_md5 observed_md5))
  else
    let parent_dirs := dirname (dest_store_path a) in
    let nm := basename (dest_store_path a) in
    letM instance := gets (fun w => instances w !! (id st, parent_dirs, nm)) in
    match instance with
    | Some _ => doM _delete st stage_path in ret tt
    | None =>
        doM _move st stage_path (dest_store_path a) in
        let obs := mkObservation (arg_obsid a) (arg_start_jd a) None None in
        let file := mkFile nm observed_type (arg_obsid a) sourcename observed_size
                      observed_md5 (default now create_time) in
        let inst := mkFileInstance (id st) parent_dirs nm in
        doM modify (merge_rows obs file inst) in
        ret tt
    end.

End ServerStore.

(** ** server/librarian_server/search.py *)

Module Search.

Import ServerStore.

(** SQL [LIKE]: [%] stands for any run of characters and [_] for any
    single one; other characters stand for themselves. *)
Fixpoint like (pat : string) : string -> bool :=
  match pat with
  | EmptyString => fun s => match s with EmptyString => true | String _ _ => false end
  | String c pat' =>
      if Ascii.eqb c "%" then
        fix any (s : string) : bool :=
          like pat' s || match s with EmptyString => false | String _ s' => any s' end
      else if Ascii.eqb c "_" then
        fun s => match s with EmptyString => false | String _ s' => like pat' s' end
      else
        fun s => match s with
                 | EmptyString => false
                 | String d s' => Ascii.eqb c d && like pat' s'
                 end
  end.

(** [datetime.timedelta (days=14)] in seconds. *)
Definition two_weeks : Z := 14 * 86400.

(** [select_files]: the rows of the [file] table, in query order, that the
    named search keeps; [now] is [datetime.datetime.utcnow ()]. *)
Definition select_files (search_string : string) (now : Z) (table : list File)
  : outcome (list File) :=
  if String.eqb search_string "special-test-1" then
    let two_weeks_ago := now - two_weeks in
    Ok (List.filter (fun f => (two_weeks_ago <? file_create_time f)
                              && like "%22130%" (file_name f)) table)
  else if String.eqb search_string "special-test-2" then
    let two_weeks_ago := now - two_weeks in
    Ok (List.filter (fun f => (two_weeks_ago <? file_create_time f)
                              && like "zen%HH.uvc" (file_name f)) table)
  else if String.eqb search_string "empty-search" then
    Ok (List.filter (fun f => negb (file_size f =? file_size f)) table)
  else Raise (NotImplementedError "general searching not actually implemented").

Record FileEvent : Type := mkFileEvent {
  ev_name : string;
  ev_type : string
}.

Record StandingOrder : Type := mkStandingOrder {
  so_name : string;
  so_search : string;
  so_conn_name : string
}.

Definition event_type (o : StandingOrder) : string :=
  "standing_order_succeeded:" +:+ so_name o.

(** The tasks of [the_task_manager]; only an [UploaderTask] has a store
    path and a standing order. *)
Inductive Task : Type :=
| UploaderTask (store_path : string) (standing_order_name : option string)
    (exception : option string)
| OtherTask.

(** What one evaluation reads. *)
Record Env : Type := mkEnv {
  file_table : list File;
  event_table : list FileEvent;
  tasks : list Task
}.

(** [already_done]: the names of the files that carry the marker event. *)
Definition already_done (o : StandingOrder) (env : Env) : list string :=
  flat_map (fun f =>
    flat_map (fun e =>
      if String.eqb (ev_name e) (file_name f) && String.eqb (ev_type e) (event_type o)
      then [file_name f] else []) (event_table env)) (file_table env).

Definition in_names (n : string) (l : list string) : bool :=
  existsb (String.eqb n) l.

(** [already_launched]: a set of base names. *)
Definition already_launched (o : StandingOrder) (env : Env) : gset string :=
  list_to_set
    (flat_map (fun t =>
       match t with
       | UploaderTask store_path standing_order_name exception =>
           if bool_decide (Some (so_name o) = standing_order_name) && is_none exception
           then [basename store_path] else []
       | OtherTask => []
       end) (tasks env)).

(** [get_files_to_copy]: the generator, as the list of what it yields. *)
Definition get_files_to_copy (o : StandingOrder) (now : Z) (env : Env)
  : outcome (list File) :=
  match select_files (so_search o) now (file_table env) with
  | Raise e => Raise e
  | Ok query =>
      let done := already_done o env in
      let query := List.filter (fun f => negb (in_names (file_name f) done)) query in
      let launched := already_launched o env in
      Ok (List.filter (fun f => bool_decide (file_name f ∉ launched)) query)
  end.

(** A call of [launch_copy_by_file_name]. *)
Record LaunchCall : Type := mkLaunchCall {
  lc_file_name : string;
  lc_conn_name : string;
  lc_standing_order_name : string;
  lc_no_instance : string
}.

(** The call one evaluation makes for a file. *)
Definition call_for (o : StandingOrder) (f : File) : LaunchCall :=
  mkLaunchCall (file_name f) (so_conn_name o) (so_name o) "return".

(** What one evaluation does: the copies it asks for and the lines it
    logs (level and text). *)
Record Effects : Type := mkEffects {
  launches : list LaunchCall;
  log : list (string * string)
}.

Definition log_line (level text : string) : M Effects unit :=
  modify (fun e => {| launches := launches e; log := log e ++ [(level, text)] |}).

Section StandingOrders.

(** What [launch_copy_by_file_name (..., no_instance='return')] returns
    for a file and a destination: true when no instance of the file is
    available (the function is outside these sources). *)
Variable no_instance_available : string -> string -> bool.

Definition launch_copy_by_file_name (file_name conn_name standing_order_name : string)
  : M Effects bool :=
  fun e =>
    (Ok (no_instance_available file_name conn_name),
     {| launches := launches e ++
          [mkLaunchCall file_name conn_name standing_order_name "return"];
        log := log e |}).

Fixpoint launch_each (o : StandingOrder) (l : list File) : M Effects unit :=
  match l with
  | [] => ret tt
  | file :: rest =>
      doM log_line "DEBUG" ("got a hit: " +:+ file_name file) in
      letM r := launch_copy_by_file_name (file_name file) (so_conn_name o) (so_name o) in
      doM (if r : bool
           then log_line "WARNING"
                  ("standing order " +:+ so_name o +:+ " should copy file " +:+
                   file_name file +:+ " to " +:+ so_conn_name o +:+
                   ", but no instances of it are available")
           else ret tt) in
      launch_each o rest
  end.

(** [StandingOrder.maybe_launch_copies]. *)
Definition maybe_launch_copies (o : StandingOrder) (now : Z) (env : Env)
  : M Effects unit :=
  doM log_line "DEBUG" ("evaluating standing order " +:+ so_name o) in
  match get_files_to_copy o now env with
  | Raise e => raise e
  | Ok l => launch_each o l
  end.

End StandingOrders.

(** The specification's words: the files of the search, minus those with
    the success event, minus those with a task in flight for this order. *)
Definition has_success_event (o : StandingOrder) (env : Env) (f : File) : Prop :=
  exists e, In e (event_table env) /\
            ev_name e = file_name f /\ ev_type e = event_type o.

Definition has_task_in_flight (o : StandingOrder) (env : Env) (f : File) : Prop :=
  exists store_path, In (UploaderTask store_path (Some (so_name o)) None) (tasks env) /\
                     basename store_path = file_name f.

End Search.

(** ** hera_librarian: transfer states and error kinds *)

Inductive TransferStatus : Type :=
| INITIATED | ONGOING | STAGED | COMPLETED | FAILED | CANCELLED.

#[global] Instance TransferStatus_eq_dec : EqDecision TransferStatus.
Proof. solve_decision. Defined.

Definition status_name (t : TransferStatus) : string :=
  match t with
  | INITIATED => "TransferStatus.INITIATED"
  | ONGOING => "TransferStatus.ONGOING"
  | STAGED => "TransferStatus.STAGED"
  | COMPLETED => "TransferStatus.COMPLETED"
  | FAILED => "TransferStatus.FAILED"
  | CANCELLED => "TransferStatus.CANCELLED"
  end.

Inductive ErrorSeverity : Type :=
| SevCRITICAL | SevERROR | SevWARNING | SevINFO.

Inductive ErrorCategory : Type :=
| LIBRARIAN_NETWORK_AVAILABILITY | DATA_AVAILABILITY | TRANSFER | PROGRAMMING | STORE.

Inductive DeletionPolicy : Type := DISALLOWED | ALLOWED.

(** [str(e)] of an exception. *)
Definition exn_str (e : exn) : string :=
  match e with
  | ServerError m | NotImplementedError m | NameError m | ValueError m
  | TypeError m | AttributeError m | LibrarianError m | StoreError m => m
  end.

(** ** librarian_server/logger.py *)

Module Logger.

(** Levels of the [logging] module. *)
Definition CRITICAL : Z := 50.
Definition ERROR : Z := 40.
Definition WARNING : Z := 30.
Definition INFO : Z := 20.
Definition DEBUG : Z := 10.

Definition error_severity_to_logging_level (s : ErrorSeverity) : Z :=
  match s with
  | SevCRITICAL => CRITICAL
  | SevERROR => ERROR
  | SevWARNING => WARNING
  | SevINFO => INFO
  end.

(** A row of the [errors] table. *)
Record Error : Type := new_error {
  severity : ErrorSeverity;
  category : ErrorCategory;
  message : string
}.

(** The log lines written so far (level and text) and the [errors]
    table. *)
Record Journal : Type := mkJournal {
  lines : list (Z * string);
  errors : list Error
}.

Definition log (level : Z) (text : string) (j : Journal) : Journal :=
  {| lines := lines j ++ [(level, text)]; errors := errors j |}.

(** The database session a caller hands over. *)
Inductive Session : Type := the_session.

(** [log_to_database]. All four parameters are required: a call that
    leaves [session] out is a [TypeError] before the body runs. *)
Definition log_to_database (sev : ErrorSeverity) (cat : ErrorCategory)
  (msg : string) (session : option Session) : M Journal unit :=
  match session with
  | None =>
      raise (TypeError
        "log_to_database() missing 1 required positional argument: 'session'")
  | Some _ =>
      let log_level := error_severity_to_logging_level sev in
      modify (fun j =>
        let j := log log_level msg j in
        {| lines := lines j; errors := errors j ++ [new_error sev cat msg] |})
  end.

End Logger.

(** ** librarian_background/queues.py *)

Module Queues.

Import Logger.

(** The transfer manager of a queue item: its serialized state [Mgr] and
    the two calls the queue makes. [batch_transfer] gives the answer and
    the state of the manager after the call. *)
Class AsyncTransferManager (Mgr : Type) : Type := {
  batch_transfer : Mgr -> list (string * string) -> bool * Mgr;
  transfer_status : Mgr -> TransferStatus
}.

Record OutgoingTransfer : Type := mkOutgoing {
  ot_destination : string;
  source_path : string;
  dest_path : string;
  transfer_size : Z;
  transfer_checksum : string;
  status : TransferStatus
}.

Definition set_status (new_status : TransferStatus) (t : OutgoingTransfer)
  : OutgoingTransfer :=
  {| ot_destination := ot_destination t; source_path := source_path t;
     dest_path := dest_path t; transfer_size := transfer_size t;
     transfer_checksum := transfer_checksum t; status := new_status |}.

(** A row of [send_queue]; [transfers] holds the ids of its children in
    the [outgoing_transfers] table. *)
Record SendQueue (Mgr : Type) : Type := mkSendQueue {
  sq_id : Z;
  priority : Z;
  created_time : Z;
  destination : string;
  transfers : list Z;
  async_transfer_manager : Mgr;
  consumed : bool;
  consumed_time : option Z;
  completed : bool;
  completed_time : option Z;
  retries : Z;
  failed : bool
}.
Arguments mkSendQueue {Mgr}.
Arguments sq_id {Mgr}.
Arguments priority {Mgr}.
Arguments created_time {Mgr}.
Arguments destination {Mgr}.
Arguments transfers {Mgr}.
Arguments async_transfer_manager {Mgr}.
Arguments consumed {Mgr}.
Arguments consumed_time {Mgr}.
Arguments completed {Mgr}.
Arguments completed_time {Mgr}.
Arguments retries {Mgr}.
Arguments failed {Mgr}.

(** A peer in the [librarians] table; [reachable] is whether a request
    through its client gets an answer. *)
Record Librarian : Type := mkLibrarian {
  lib_name : string;
  reachable : bool
}.

Record Settings : Type := mkSettings {
  max_async_send_retries : Z
}.

Record State (Mgr : Type) : Type := mkState {
  send_queue : list (SendQueue Mgr);
  outgoing : gmap Z OutgoingTransfer;
  librarians : list Librarian;
  journal : Journal;
  reads : nat
}.
Arguments mkState {Mgr}.
Arguments send_queue {Mgr}.
Arguments outgoing {Mgr}.
Arguments librarians {Mgr}.
Arguments journal {Mgr}.
Arguments reads {Mgr}.

(** Attribute assignments on a row of the queue. *)
Definition set_consumed {Mgr} (q : SendQueue Mgr) (t : Z) (m : Mgr) : SendQueue Mgr :=
  mkSendQueue (sq_id q) (priority q) (created_time q) (destination q) (transfers q)
    m true (Some t) (completed q) (completed_time q) (retries q) (failed q).

Definition add_retry {Mgr} (q : SendQueue Mgr) : SendQueue Mgr :=
  mkSendQueue (sq_id q) (priority q) (created_time q) (destination q) (transfers q)
    (async_transfer_manager q) (consumed q) (consumed_time q) (completed q)
    (completed_time q) (retries q + 1) (failed q).

Definition set_failed {Mgr} (q : SendQueue Mgr) : SendQueue Mgr :=
  mkSendQueue (sq_id q) (priority q) (created_time q) (destination q) (transfers q)
    (async_transfer_manager q) (consumed q) (consumed_time q) true
    (completed_time q) (retries q) true.

Definition set_completed {Mgr} (q : SendQueue Mgr) (t : Z) : SendQueue Mgr :=
  mkSendQueue (sq_id q) (priority q) (created_time q) (destination q) (transfers q)
    (async_transfer_manager q) (consumed q) (consumed_time q) true
    (Some t) (retries q) (failed q).

Section Tasks.

Context {Mgr : Type} `{AsyncTransferManager Mgr}.

(** The wall clock: the time at each successive reading. *)
Variable clock : nat -> Z.
Variable server_settings : Settings.

Local Abbreviation St := (State Mgr).

Definition now : M St Z :=
  fun s => (Ok (clock (reads s)),
            mkState (send_queue s) (outgoing s) (librarians s) (journal s) (S (reads s))).

Definition set_row (i : nat) (q : SendQueue Mgr) : M St unit :=
  modify (fun s => mkState (<[i := q]> (send_queue s)) (outgoing s) (librarians s)
                     (journal s) (reads s)).

Definition alter_transfer (f : OutgoingTransfer -> OutgoingTransfer) (id : Z) : M St unit :=
  modify (fun s => mkState (send_queue s) (alter f id (outgoing s)) (librarians s)
                     (journal s) (reads s)).

(** A computation on the journal, run on the journal of the state. *)
Definition on_journal {A} (c : M Journal A) : M St A :=
  fun s =>
    let '(r, j) := c (journal s) in
    (r, mkState (send_queue s) (outgoing s) (librarians s) j (reads s)).

(** The table of transfers once [f] was applied to the rows [ids]. *)
Definition alter_all (f : OutgoingTransfer -> OutgoingTransfer) (ids : list Z)
  (m : gmap Z OutgoingTransfer) : gmap Z OutgoingTransfer :=
  foldl (fun m id => alter f id m) m ids.

Fixpoint for_each {A} (f : A -> M St unit) (l : list A) : M St unit :=
  match l with
  | [] => ret tt
  | x :: rest => doM f x in for_each f rest
  end.

(** Modelled from the spec: [OutgoingTransfer.fail_transfer] and
    [SendQueue.fail] ([librarian_server/orm], absent from the sources).
    Failing a transfer moves it to FAILED; failing a queue item fails
    every child and marks the row [failed] and [completed]. *)
Definition fail_transfer (id : Z) : M St unit := alter_transfer (set_status FAILED) id.

Definition fail (i : nat) (q : SendQueue Mgr) : M St (SendQueue Mgr) :=
  doM for_each fail_transfer (transfers q) in
  doM set_row i (set_failed q) in
  ret (set_failed q).

(** Modelled from the spec: [SendQueue.update_transfer_status], absent
    from the sources. It looks the destination up among the librarians (a
    missing one is the [AttributeError] of using [None]), tells the peer
    (a [LibrarianError] when it does not answer) and then sets every
    child to [new_status]. *)
Definition update_transfer_status (q : SendQueue Mgr) (new_status : TransferStatus)
  : M St unit :=
  letM ls := gets librarians in
  match List.find (fun l => String.eqb (lib_name l) (destination q)) ls with
  | None => raise (AttributeError "'NoneType' object has no attribute 'client'")
  | Some l =>
      if reachable l
      then for_each (alter_transfer (set_status new_status)) (transfers q)
      else raise (LibrarianError ("Unable to connect to " +:+ lib_name l))
  end.

(** The rows of a query with their position in the table. *)
Definition rows_where (p : SendQueue Mgr -> bool) (l : list (SendQueue Mgr))
  : list (nat * SendQueue Mgr) :=
  List.filter (fun x => p (snd x)) (imap pair l).

(** [a] comes strictly before [b] in
    [ORDER BY priority DESC, created_time]. *)
Definition before (a b : SendQueue Mgr) : bool :=
  (priority b <? priority a) ||
  ((priority a =? priority b) && (created_time a <? created_time b)).

(** [.scalar ()]: the first row in that order, the earlier row of the
    table among equals. *)
Fixpoint first_row (l : list (nat * SendQueue Mgr)) : option (nat * SendQueue Mgr) :=
  match l with
  | [] => None
  | x :: rest =>
      match first_row rest with
      | None => Some x
      | Some y => if before (snd y) (snd x) then Some y else Some x
      end
  end.

(** The pairs of paths handed to [batch_transfer]. *)
Definition transfer_list_of (outs : gmap Z OutgoingTransfer) (q : SendQueue Mgr)
  : list (string * string) :=
  omap (fun id => (fun x => (source_path x, dest_path x)) <$> outs !! id) (transfers q).

(** The rows [consume_queue_item] may take. *)
Definition pending (q : SendQueue Mgr) : bool := negb (completed q) && negb (consumed q).

(** [consume_queue_item]. *)
Definition consume_queue_item : M St bool :=
  letM table := gets send_queue in
  match first_row (rows_where pending table) with
  | None => ret false
  | Some (i, queue_item) =>
      letM outs := gets outgoing in
      let transfer_list := transfer_list_of outs queue_item in
      let '(success, transfer_manager) :=
        batch_transfer (async_transfer_manager queue_item) transfer_list in
      doM (if success
           then
             letM t := now in
             set_row i (set_consumed queue_item t transfer_manager)
           else
             let queue_item := add_retry queue_item in
             doM set_row i queue_item in
             if max_async_send_retries server_settings <? retries queue_item
             then doM fail i queue_item in ret tt
             else ret tt) in
      ret true
  end.

(** [ConsumeQueue.core]: its [while] loop runs at most [fuel] rounds here;
    the answer tells whether the loop ended within them. A task without
    soft timeout gives itself a hundred days. *)
Fixpoint consume_while (fuel : nat) (timeout_after : Z) : M St bool :=
  match fuel with
  | O => ret false
  | S fuel =>
      letM t := now in
      if t <=? timeout_after then
        letM r := consume_queue_item in
        if negb r then ret true else consume_while fuel timeout_after
      else ret true
  end.

Definition ConsumeQueue_core (fuel : nat) (soft_timeout : option Z) : M St bool :=
  letM current_time := now in
  let timeout_after := current_time + default (100 * 86400) soft_timeout in
  consume_while fuel timeout_after.

(** The state once the clock has been read. *)
Definition ticked (s : St) : St :=
  mkState (send_queue s) (outgoing s) (librarians s) (journal s) (S (reads s)).

(** How the body of the loop of [check_on_consumed] leaves: by
    [continue], or by reaching the end of the body. *)
Inductive Flow : Type := Continue | Reached_end.

Definition msg_not_available (q : SendQueue Mgr) (e : exn) : string :=
  "Librarian " +:+ destination q +:+ " was not available for contact, returning error "
  +:+ exn_str e +:+ ". We will try again later.".

(** The journal once the warning about a peer that does not answer is
    in it. *)
Definition warned (q : SendQueue Mgr) (l : Librarian) (j : Journal) : Journal :=
  let text := msg_not_available q (LibrarianError ("Unable to connect to " +:+ lib_name l)) in
  {| lines := lines j ++ [(WARNING, text)];
     errors := errors j ++ [new_error SevWARNING LIBRARIAN_NETWORK_AVAILABILITY text] |}.

Definition msg_not_found (q : SendQueue Mgr) (e : exn) : string :=
  "Librarian " +:+ destination q +:+ " was not found in the database, returning error "
  +:+ exn_str e +:+ ". Will try again later to complete this transfer, but remedy is suggested.".

Definition msg_incompatible (q : SendQueue Mgr) (current_status : TransferStatus) : string :=
  "Incompatible return value for transfer status from SendQueue item "
  +:+ str_of_int (sq_id q) +:+ " (" +:+ status_name current_status +:+ ").".

Definition msg_only_staged : string :=
  "No other status than STAGED is supported for checking on consumed".

(** The body of the loop, up to the lines that mark the row. *)
Definition check_item (complete_status : TransferStatus) (queue_item : SendQueue Mgr)
  : M St Flow :=
  let current_status := transfer_status (async_transfer_manager queue_item) in
  match current_status with
  | INITIATED => ret Continue
  | COMPLETED =>
      if decide (complete_status = STAGED) then
        try_except
          (doM update_transfer_status queue_item complete_status in ret Reached_end)
          (fun e =>
             match e with
             | LibrarianError _ =>
                 doM on_journal
                   (log_to_database SevWARNING LIBRARIAN_NETWORK_AVAILABILITY
                      (msg_not_available queue_item e) (Some the_session)) in
                 ret Continue
             | AttributeError _ =>
                 doM on_journal
                   (log_to_database SevCRITICAL LIBRARIAN_NETWORK_AVAILABILITY
                      (msg_not_found queue_item e) None) in
                 ret Continue
             | _ => raise e
             end)
      else raise (ValueError msg_only_staged)
  | FAILED =>
      doM for_each fail_transfer (transfers queue_item) in
      ret Reached_end
  | _ =>
      doM on_journal
        (log_to_database SevWARNING TRANSFER
           (msg_incompatible queue_item current_status) (Some the_session)) in
      ret Continue
  end.

Fixpoint check_loop (timeout_after : Z) (complete_status : TransferStatus)
  (queue_items : list (nat * SendQueue Mgr)) : M St bool :=
  match queue_items with
  | [] => ret true
  | (i, queue_item) :: rest =>
      letM t := now in
      if timeout_after <? t then ret false
      else
        letM flow := check_item complete_status queue_item in
        doM match flow with
            | Continue => ret tt
            | Reached_end =>
                letM t := now in
                set_row i (set_completed queue_item t)
            end in
        check_loop timeout_after complete_status rest
  end.

(** The rows [check_on_consumed] looks at. *)
Definition in_flight (q : SendQueue Mgr) : bool := consumed q && negb (completed q).

(** [check_on_consumed]. *)
Definition check_on_consumed (timeout_after : Z) (complete_status : TransferStatus)
  : M St bool :=
  letM table := gets send_queue in
  let queue_items := rows_where in_flight table in
  match queue_items with
  | [] => ret false
  | _ :: _ => check_loop timeout_after complete_status queue_items
  end.

(** [CheckConsumedQueue.core], for a task with the given [complete_status]
    and soft timeout (a hundred days when there is none). *)
Definition CheckConsumedQueue_core (complete_status : TransferStatus)
  (soft_timeout : option Z) : M St unit :=
  letM current_time := now in
  let timeout_after := current_time + default (100 * 86400) soft_timeout in
  doM check_on_consumed timeout_after complete_status in
  ret tt.

End Tasks.

(** The default of [CheckConsumedQueue.complete_status]. *)
Definition default_complete_status : TransferStatus := STAGED.

(** The claim of the specification about an item whose probe says
    COMPLETED, word for word: the run ends without an exception and has
    set every child to the configured status. *)
Definition sets_children_without_raising {Mgr} `{AsyncTransferManager Mgr}
  (clock : nat -> Z) (timeout_after : Z) (complete_status : TransferStatus)
  (s : State Mgr) : Prop :=
  forall i q,
    In (i, q) (rows_where in_flight (send_queue s)) ->
    transfer_status (async_transfer_manager q) = COMPLETED ->
    let r := check_on_consumed clock timeout_after complete_status s in
    is_ok (fst r) = true /\
    forall id t, In id (transfers q) -> outgoing (snd r) !! id = Some t ->
                 status t = complete_status.

(** A manager for scenarios: one that never sends, one whose batch has
    arrived. *)
Inductive StubManager : Type := NeverSends | Delivered.

#[global] Instance stub_manager : AsyncTransferManager StubManager := {|
  batch_transfer m _ := (match m with NeverSends => false | Delivered => true end, m);
  transfer_status m := match m with NeverSends => INITIATED | Delivered => COMPLETED end
|}.

End Queues.

(** ** librarian_background/recieve_clone.py *)

Module RecieveClone.

Import Logger.

(** What [path_info] reports about a staged path. *)
Record PathInfo : Type := mkPathInfo {
  path : string;
  md5 : string;
  size : Z
}.

(** The store manager of a store: its state [D] (the disk it manages) and
    the three calls of the task. [path_info] and [commit] may raise;
    [unstage] is best effort. *)
Class StoreManager (D : Type) : Type := {
  path_info : D -> string -> outcome PathInfo;
  commit : D -> string -> string -> outcome D;
  unstage : D -> string -> D
}.

(** A row of [store_metadata]; its id is its key in the table. *)
Record StoreMetadata (D : Type) : Type := mkStoreMetadata {
  store_name : string;
  store_manager : D
}.
Arguments mkStoreMetadata {D}.
Arguments store_name {D}.
Arguments store_manager {D}.

(** Rows of [files] and [instances]; the time stamps their constructors
    set are left out. An instance refers to its file by name and to its
    store by id. *)
Record File : Type := mkFile {
  file_name : string;
  file_checksum : string;
  file_size : Z;
  file_uploader : string;
  file_source : string
}.

Record Instance : Type := mkInstance {
  inst_id : Z;
  inst_path : string;
  inst_file : string;
  inst_store : Z;
  deletion_policy : DeletionPolicy;
  inst_available : bool
}.

Record IncomingTransfer : Type := mkIncoming {
  id : Z;
  upload_name : string;
  uploader : string;
  source : string;
  transfer_size : Z;
  transfer_checksum : string;
  staging_path : string;
  store_path : string;
  store : option Z;
  status : TransferStatus;
  end_time : option Z
}.

(** A peer; [answers] is whether a request posted through its client
    comes back. *)
Record Librarian : Type := mkLibrarian {
  lib_name : string;
  answers : bool
}.

Record CloneCompleteRequest : Type := mkCloneComplete {
  source_transfer_id : Z;
  destination_instance_id : Z;
  req_store_id : Z
}.

(** A call that changes a store. *)
Inductive StoreCall : Type :=
| Commit (store : Z) (staging_path store_path : string)
| Unstage (store : Z) (staging_path : string).

Record State (D : Type) : Type := mkState {
  incoming : list IncomingTransfer;
  stores : gmap Z (StoreMetadata D);
  files : list File;
  instances : list Instance;
  next_instance_id : Z;
  librarians : list Librarian;
  journal : Journal;
  posts : list (string * string * CloneCompleteRequest);
  store_calls : list StoreCall;
  reads : nat
}.
Arguments mkState {D}.
Arguments incoming {D}.
Arguments stores {D}.
Arguments files {D}.
Arguments instances {D}.
Arguments next_instance_id {D}.
Arguments librarians {D}.
Arguments journal {D}.
Arguments posts {D}.
Arguments store_calls {D}.
Arguments reads {D}.

(** The task object: its class attribute. *)
Record Task : Type := mkTask {
  task_deletion_policy : DeletionPolicy
}.

(** [RecieveClone ()] with the attribute left at its default. *)
Definition default_task : Task := {| task_deletion_policy := DISALLOWED |}.

Section Core.

Context {D : Type} `{StoreManager D}.

Variable clock : nat -> Z.
Variable self : Task.

Local Abbreviation St := (State D).

Definition utcnow : M St Z :=
  fun s => (Ok (clock (reads s)),
            mkState (incoming s) (stores s) (files s) (instances s) (next_instance_id s)
              (librarians s) (journal s) (posts s) (store_calls s) (S (reads s))).

Definition set_journal (j : Journal) (s : St) : St :=
  mkState (incoming s) (stores s) (files s) (instances s) (next_instance_id s)
    (librarians s) j (posts s) (store_calls s) (reads s).

Definition on_journal {A} (c : M Journal A) : M St A :=
  fun s => let '(r, j) := c (journal s) in (r, set_journal j s).

Definition logger_info (text : string) : M St unit :=
  modify (fun s => set_journal (log INFO text (journal s)) s).

Definition logger_error (text : string) : M St unit :=
  modify (fun s => set_journal (log ERROR text (journal s)) s).

(** The store manager of a store after a call on it, and the call. *)
Definition store_did (k : Z) (st : StoreMetadata D) (d : D) (c : StoreCall) : M St unit :=
  modify (fun s =>
    mkState (incoming s)
      (<[k := mkStoreMetadata (store_name st) d]> (stores s))
      (files s) (instances s) (next_instance_id s)
      (librarians s) (journal s) (posts s) (store_calls s ++ [c]) (reads s)).

(** [File.new_file] and [Instance.new_instance] followed by
    [session.add]: the rows are appended, the instance getting the next
    id of its table. *)
Definition new_file (filename checksum : string) (size : Z) (uploader source : string)
  : File :=
  mkFile filename checksum size uploader source.

Definition add_file_and_instance (file : File) (path : string) (store : Z)
  (policy : DeletionPolicy) : M St Instance :=
  fun s =>
    let instance := mkInstance (next_instance_id s) path (file_name file) store
                      policy true in
    (Ok instance,
     mkState (incoming s) (stores s) (files s ++ [file]) (instances s ++ [instance])
       (next_instance_id s + 1) (librarians s) (journal s) (posts s) (store_calls s)
       (reads s)).

Definition set_transfer (i : nat) (t : IncomingTransfer) : M St unit :=
  modify (fun s =>
    mkState (<[i := t]> (incoming s)) (stores s) (files s) (instances s)
      (next_instance_id s) (librarians s) (journal s) (posts s) (store_calls s) (reads s)).

Definition complete (t : IncomingTransfer) (now : Z) : IncomingTransfer :=
  mkIncoming (id t) (upload_name t) (uploader t) (source t) (transfer_size t)
    (transfer_checksum t) (staging_path t) (store_path t) (store t)
    COMPLETED (Some now).

(** [librarian.client.post]: the request reaches the peer or the call
    raises. *)
Definition post (l : Librarian) (endpoint : string) (r : CloneCompleteRequest)
  : M St unit :=
  if answers l
  then modify (fun s =>
         mkState (incoming s) (stores s) (files s) (instances s) (next_instance_id s)
           (librarians s) (journal s) (posts s ++ [(lib_name l, endpoint, r)])
           (store_calls s) (reads s))
  else raise (LibrarianError ("Unable to connect to " +:+ lib_name l)).

Definition msg_no_store (t : IncomingTransfer) : string :=
  "Transfer " +:+ str_of_int (id t) +:+ " has no store associated with it. " +:+
  "Skipping for now, but this should never happen.".

Definition msg_no_info (t : IncomingTransfer) : string :=
  "Transfer " +:+ str_of_int (id t) +:+ ": cannot get information about staging " +:+
  "path: " +:+ staging_path t +:+ ". Skipping for now.".

Definition msg_completed (t : IncomingTransfer) : string :=
  "Transfer " +:+ str_of_int (id t) +:+
  " has completed. Moving file to store and creating instance.".

Definition msg_move_failed (t : IncomingTransfer) (st : StoreMetadata D) (e : exn) : string :=
  "Failed to move file " +:+ staging_path t +:+ " to store " +:+ store_name st +:+
  " at " +:+ store_path t +:+ ". Exception: " +:+ exn_str e +:+ ". Skipping for now.".

Definition msg_calling_back (t : IncomingTransfer) (l : Librarian) : string :=
  "Transfer " +:+ str_of_int (id t) +:+ " has completed. Calling back to librarian " +:+
  lib_name l +:+ ".".

Definition msg_callback_failed (l : Librarian) (e : exn) : string :=
  "Failed to call back to librarian " +:+ lib_name l +:+ " with exception " +:+
  exn_str e +:+ ".".

Definition msg_no_librarian (t : IncomingTransfer) : string :=
  "Transfer " +:+ str_of_int (id t) +:+ " has no source librarian. Cannot callback.".

Definition msg_not_yet (t : IncomingTransfer) : string :=
  "Transfer " +:+ str_of_int (id t) +:+ " has not yet completed. Skipping.".

(** [transfer.store]: the row the transfer refers to, if any, with its
    id. *)
Definition store_of (t : IncomingTransfer) (s : St) : option (Z * StoreMetadata D) :=
  match store t with
  | None => None
  | Some k => pair k <$> stores s !! k
  end.

(** The body of the loop of [core] for the transfer at row [i]. The
    answer is false where the body clears [all_transfers_succeeded]. *)
Definition core_body (i : nat) (transfer : IncomingTransfer) : M St bool :=
  letM found := gets (store_of transfer) in
  match found with
  | None =>
      doM on_journal (log_to_database SevCRITICAL PROGRAMMING (msg_no_store transfer)
                        (Some the_session)) in
      ret false
  | Some (store_id, st) =>
      match path_info (store_manager st) (staging_path transfer) with
      | Raise (TypeError _) =>
          doM on_journal (log_to_database SevERROR DATA_AVAILABILITY
                            (msg_no_info transfer) (Some the_session)) in
          ret false
      | Raise e => raise e
      | Ok info =>
          if String.eqb (md5 info) (transfer_checksum transfer)
             && (size info =? transfer_size transfer)
          then
            doM logger_info (msg_completed transfer) in
            match commit (store_manager st) (staging_path transfer) (store_path transfer) with
            | Raise e =>
                doM logger_error (msg_move_failed transfer st e) in
                ret false
            | Ok d =>
                doM store_did store_id st d
                      (Commit store_id (staging_path transfer) (store_path transfer)) in
                let file := new_file (upload_name transfer) (transfer_checksum transfer)
                              (transfer_size transfer) (uploader transfer)
                              (source transfer) in
                letM instance := add_file_and_instance file (path info) store_id
                                   (task_deletion_policy self) in
                letM t := utcnow in
                doM set_transfer i (complete transfer t) in
                letM ls := gets librarians in
                doM match List.find (fun l => String.eqb (lib_name l) (source transfer)) ls with
                    | Some librarian =>
                        doM logger_info (msg_calling_back transfer librarian) in
                        let request := mkCloneComplete (id transfer) (inst_id instance)
                                         store_id in
                        try_except (post librarian "clone/complete" request)
                          (fun e =>
                             on_journal (log_to_database SevERROR
                                           LIBRARIAN_NETWORK_AVAILABILITY
                                           (msg_callback_failed librarian e)
                                           (Some the_session)))
                    | None => logger_error (msg_no_librarian transfer)
                    end in
                doM store_did store_id st (unstage d (staging_path transfer))
                      (Unstage store_id (staging_path transfer)) in
                ret true
            end
          else
            doM logger_info (msg_not_yet transfer) in
            ret true
      end
  end.

Fixpoint core_loop (ongoing_transfers : list (nat * IncomingTransfer))
  (all_transfers_succeeded : bool) : M St bool :=
  match ongoing_transfers with
  | [] => ret all_transfers_succeeded
  | (i, transfer) :: rest =>
      letM ok := core_body i transfer in
      core_loop rest (all_transfers_succeeded && ok)
  end.

(** [RecieveClone.core]. *)
Definition core : M St bool :=
  letM table := gets incoming in
  let ongoing_transfers :=
    List.filter (fun x => bool_decide (status (snd x) = ONGOING)) (imap pair table) in
  doM (if Nat.eqb (length ongoing_transfers) 0
       then logger_info "No ongoing transfers to process."
       else ret tt) in
  core_loop ongoing_transfers true.

End Core.

(** Modelled from the spec: a store manager over a local disk, for
    scenarios (the managers of [hera_librarian] are absent from the
    sources). The disk maps a path to the checksum and size of the bytes
    there. [path_info] describes the path it is asked about; [commit]
    moves the staged bytes to their final path; [unstage] deletes
    whatever is staged. *)
Definition LocalDisk : Type := gmap string (string * Z).

#[global] Instance local_store : StoreManager LocalDisk := {|
  path_info d p :=
    match d !! p with
    | Some (sum, n) => Ok (mkPathInfo p sum n)
    | None => Raise (TypeError ("nothing staged at " +:+ p))
    end;
  commit d staged final :=
    match d !! staged with
    | Some x => Ok (<[final := x]> (delete staged d))
    | None => Raise (StoreError ("nothing staged at " +:+ staged))
    end;
  unstage d p := delete p d
|}.

(** The claim of the specification about a completed transfer, word for
    word: one instance row at the store and store path of the transfer,
    a file row with its checksum and size, the configured deletion policy
    and the status COMPLETED. *)
Definition instances_at {D} (s : State D) (k : Z) (p : string) : list Instance :=
  List.filter (fun x => (inst_store x =? k) && String.eqb (inst_path x) p) (instances s).

Definition completed_with_one_instance {D} `{StoreManager D}
  (clock : nat -> Z) (self : Task) (s : State D) (i : nat) (t : IncomingTransfer)
  : Prop :=
  let s' := snd (core clock self s) in
  exists k x f,
    store t = Some k /\
    instances_at s' k (store_path t) = [x] /\
    deletion_policy x = task_deletion_policy self /\
    In f (files s') /\ file_name f = inst_file x /\
    file_checksum f = transfer_checksum t /\ file_size f = transfer_size t /\
    status <$> incoming s' !! i = Some COMPLETED.

End RecieveClone.

(** ** librarian_server/api/instances.py *)

Module InstancesApi.

Import Logger.

Record InstanceAdministrationDeleteRequest : Type := mkDeleteRequest {
  instance_id : Z;
  instance_type : string
}.

(** The [Response] object FastAPI hands to the endpoint: [status_code]
    is what the framework reads back; assigning any other attribute
    just adds it to the object. *)
Record Response : Type := mkResponse {
  status_code : option Z;
  other_attributes : list (string * Z)
}.

Definition setattr (r : Response) (attribute : string) (v : Z) : Response :=
  if String.eqb attribute "status_code"
  then {| status_code := Some v; other_attributes := other_attributes r |}
  else {| status_code := status_code r;
          other_attributes := (attribute, v) :: other_attributes r |}.

Definition HTTP_400_BAD_REQUEST : Z := 400.
Definition HTTP_201_CREATED : Z := 201.

(** The route is declared without a status code, so a reply whose
    [status_code] was never set goes out with the default of the
    framework. *)
Definition default_status_code : Z := 200.

Definition http_status (r : Response) : Z := default default_status_code (status_code r).

(** A keyword argument of the call that builds the reply. *)
Inductive PyValue : Type :=
| PyBool (b : bool)
| PyInt (n : Z).

(** [InstanceAdministrationChangeResponse (...)]: the keywords the
    endpoint passes, in order. *)
Definition ChangeResponseCall : Type := list (string * PyValue).

Definition keyword (k : string) (c : ChangeResponseCall) : option PyValue :=
  snd <$> List.find (fun kv => String.eqb (fst kv) k) c.

Record Instance : Type := mkInstance {
  inst_path : string;
  inst_file : string;
  inst_store : Z
}.

Record RemoteInstance : Type := mkRemoteInstance {
  rem_file : string;
  rem_librarian_name : string
}.

Record State : Type := mkState {
  instances : gmap Z Instance;
  remote_instances : gmap Z RemoteInstance;
  journal : Journal
}.

Definition log_info (text : string) : M State unit :=
  modify (fun s => mkState (instances s) (remote_instances s) (log INFO text (journal s))).

Definition log_error (text : string) : M State unit :=
  modify (fun s => mkState (instances s) (remote_instances s) (log ERROR text (journal s))).

(** The table [session.get] looks into. *)
Inductive InstanceClass : Type := InstanceT | RemoteInstanceT.

Definition session_get (c : InstanceClass) (k : Z) (s : State) : bool :=
  match c with
  | InstanceT => bool_decide (is_Some (instances s !! k))
  | RemoteInstanceT => bool_decide (is_Some (remote_instances s !! k))
  end.

Definition session_delete (c : InstanceClass) (k : Z) : M State unit :=
  modify (fun s =>
    match c with
    | InstanceT => mkState (delete k (instances s)) (remote_instances s) (journal s)
    | RemoteInstanceT => mkState (instances s) (delete k (remote_instances s)) (journal s)
    end).

(** [delete_remote_instance]: the response object as the endpoint leaves
    it, and the call that builds the reply. *)
Definition delete_remote_instance (request : InstanceAdministrationDeleteRequest)
  (username : string) (response : Response) : M State (Response * ChangeResponseCall) :=
  doM log_info ("Request from " +:+ username +:+ " to delete remote instance " +:+
                str_of_int (instance_id request)) in
  match
    (if String.eqb (instance_type request) "local" then Some InstanceT
     else if String.eqb (instance_type request) "remote" then Some RemoteInstanceT
     else None)
  with
  | None =>
      doM log_error ("Instance type " +:+ instance_type request +:+ " is not valid" +:+
                     "Request local or remote.") in
      let response := setattr response "response_conde" HTTP_400_BAD_REQUEST in
      ret (response, [("succes", PyBool false); ("instance_id", PyInt (instance_id request))])
  | Some instance_type =>
      letM instance := gets (session_get instance_type (instance_id request)) in
      if negb instance then
        doM log_error ("Instance " +:+ str_of_int (instance_id request) +:+
                       " does not exist") in
        let response := setattr response "response_conde" HTTP_400_BAD_REQUEST in
        ret (response, [("succes", PyBool false); ("instance_id", PyInt (instance_id request))])
      else
        doM session_delete instance_type (instance_id request) in
        ret (response, [("success", PyBool true); ("instance_id", PyInt (instance_id request))])
  end.

(** The response object of a request: nothing set yet. *)
Definition fresh_response : Response := {| status_code := None; other_attributes := [] |}.

End InstancesApi.

(** ** search.py: the manager of the standing orders *)

Module StandingOrderManager.

Import ServerStore Search.

Definition MIN_STANDING_ORDER_INTERVAL : Z := 300.
Definition DEFAULT_STANDING_ORDER_DELAY : Z := 90.

(** The singleton manager ([last_check], [launch_queued]), the timeouts
    [IOLoop.call_later] holds for [_launch_copy_timeout] (their delays,
    in the order they were asked for), and what the evaluations did. The
    clock counts seconds. *)
Record Process : Type := mkProcess {
  last_check : Z;
  launch_queued : bool;
  timeouts : list Z;
  effects : Effects
}.

(** [StandingOrderManager ()] in a process that has done nothing yet. *)
Definition the_standing_order_manager : Process :=
  {| last_check := 0; launch_queued := false; timeouts := [];
     effects := mkEffects [] [] |}.

Definition on_effects {A} (c : M Effects A) : M Process A :=
  fun p =>
    let '(r, e) := c (effects p) in
    (r, mkProcess (last_check p) (launch_queued p) (timeouts p) e).

Definition debug (text : string) : M Process unit := on_effects (log_line "DEBUG" text).

Definition set_last_check (t : Z) : M Process unit :=
  modify (fun p => mkProcess t (launch_queued p) (timeouts p) (effects p)).

Definition set_launch_queued (b : bool) : M Process unit :=
  modify (fun p => mkProcess (last_check p) b (timeouts p) (effects p)).

(** [IOLoop.instance ().call_later (delay, _launch_copy_timeout)]. *)
Definition call_later (delay : Z) : M Process unit :=
  modify (fun p => mkProcess (last_check p) (launch_queued p) (timeouts p ++ [delay])
                     (effects p)).

Section Manager.

Variable no_instance_available : string -> string -> bool.

(** [StandingOrder.query.all ()] and what an evaluation reads. *)
Variable standing_orders : list StandingOrder.
Variable env : Env.

Fixpoint evaluate_each (utcnow : Z) (l : list StandingOrder) : M Effects unit :=
  match l with
  | [] => ret tt
  | storder :: rest =>
      doM Search.maybe_launch_copies no_instance_available storder utcnow env in
      evaluate_each utcnow rest
  end.

(** [StandingOrderManager.maybe_launch_copies]; [now] is [time.time ()]
    and [utcnow] the clock of the searches. *)
Definition maybe_launch_copies (now utcnow : Z) : M Process bool :=
  letM last := gets last_check in
  if now - last <? MIN_STANDING_ORDER_INTERVAL then ret false
  else
    doM debug "running searches" in
    doM set_last_check now in
    doM on_effects (evaluate_each utcnow standing_orders) in
    ret true.

(** [StandingOrderManager.queue_launch_copy]. *)
Definition queue_launch_copy : M Process unit :=
  doM debug "called queue_launch_copy" in
  letM queued := gets launch_queued in
  if queued : bool then ret tt
  else
    doM set_launch_queued true in
    doM debug "timeout actually scheduled" in
    call_later DEFAULT_STANDING_ORDER_DELAY.

(** [_launch_copy_timeout]. *)
Definition _launch_copy_timeout (now utcnow : Z) : M Process unit :=
  doM debug "timeout invoked" in
  letM ran := maybe_launch_copies now utcnow in
  if ran : bool then set_launch_queued false
  else
    doM debug "re-scheduling timeout" in
    call_later DEFAULT_STANDING_ORDER_DELAY.

(** The loop runs the oldest timeout it holds: the timeout leaves the
    loop and [_launch_copy_timeout] is called. *)
Definition fire_timeout (now utcnow : Z) : M Process unit :=
  letM pending := gets timeouts in
  match pending with
  | [] => ret tt
  | _ :: rest =>
      doM modify (fun p => mkProcess (last_check p) (launch_queued p) rest (effects p)) in
      _launch_copy_timeout now utcnow
  end.

End Manager.

(** A launch is queued exactly when the loop holds one timeout. *)
Definition queued_once (p : Process) : Prop :=
  timeouts p = (if launch_queued p then [DEFAULT_STANDING_ORDER_DELAY] else []).

End StandingOrderManager.

(** ** search.py: the pages that edit the standing orders *)

Module StandingOrderPages.

Import ServerStore Search.

(** What the views that edit the table return: [redirect (location)]. *)
Inductive Reply : Type :=
| RedirectTo (location : string).

(** The [standing_order] table, in the order of its rows, and the
    messages flashed so far. The [name] column is unique: a commit that
    would give two rows the same name raises and changes nothing. The
    length limit of the column is not enforced (as with SQLite). *)
Record Site : Type := mkSite {
  orders : list StandingOrder;
  flashes : list string
}.

Definition flash (text : string) (s : Site) : Site :=
  {| orders := orders s; flashes := flashes s ++ [text] |}.

(** [url_for ('standing_orders')]. *)
Definition url_standing_orders : string := "/standing-orders".

Definition quoted (x : string) : string := dquote +:+ x +:+ dquote.

Definition has_name (n : string) (o : StandingOrder) : bool := String.eqb (so_name o) n.

(** [StandingOrder.query.filter (StandingOrder.name == name).first ()],
    with the position of the row. *)
Definition first_named (n : string) (l : list StandingOrder) : option (nat * StandingOrder) :=
  list_find (fun o => has_name n o = true) l.

Section Pages.

(** The text of the error of the database for a name that is taken. *)
Variable integrity_error : string -> string.

(** [create_standing_order]; [name] is the field of the form. *)
Definition create_standing_order (ignored_name name : string) (s : Site) : Reply * Site :=
  let failure :=
    if Nat.eqb (String.length name) 0 then Some "order name may not be empty"
    else if existsb (has_name name) (orders s) then Some (integrity_error name)
    else None in
  match failure with
  | Some e =>
      (RedirectTo url_standing_orders,
       flash ("Cannot create " +:+ quoted name +:+ ": " +:+ e) s)
  | None =>
      let storder := mkStandingOrder name "empty-search" "undefined-connection" in
      (RedirectTo (url_standing_orders +:+ "/" +:+ name),
       {| orders := orders s ++ [storder]; flashes := flashes s |})
  end.

(** [update_standing_order]. *)
Definition update_standing_order (name new_name new_conn new_search : string) (s : Site)
  : Reply * Site :=
  match first_named name (orders s) with
  | None =>
      (RedirectTo url_standing_orders,
       flash ("No such standing order " +:+ quoted name) s)
  | Some (i, _) =>
      let storder := mkStandingOrder new_name new_search new_conn in
      if existsb (has_name new_name) (delete i (orders s))
      then (RedirectTo url_standing_orders,
            flash ("Cannot update " +:+ quoted name +:+ ": " +:+ integrity_error new_name) s)
      else (RedirectTo url_standing_orders,
            flash ("Updated standing order " +:+ quoted new_name)
              {| orders := <[i := storder]> (orders s); flashes := flashes s |})
  end.

(** [delete_standing_order]. *)
Definition delete_standing_order (name : string) (s : Site) : Reply * Site :=
  match first_named name (orders s) with
  | None =>
      (RedirectTo url_standing_orders,
       flash ("No such standing order " +:+ quoted name) s)
  | Some (i, _) =>
      (RedirectTo url_standing_orders,
       flash ("Deleted standing order " +:+ quoted name)
         {| orders := delete i (orders s); flashes := flashes s |})
  end.

End Pages.

(** The names of the table are all different. *)
Definition names_unique (s : Site) : Prop := NoDup (so_name <$> orders s).

End StandingOrderPages.

(** ** queues.py: how much work the consumer has left *)

Module QueueWork.

Import Queues.

(** The calls of [consume_queue_item] a row can still take part in: none
    once it is consumed or completed, otherwise one, plus one for each
    retry it has left. *)
Definition attempts_left {Mgr} (server_settings : Settings) (q : SendQueue Mgr) : nat :=
  if pending q
  then S (Z.to_nat (max_async_send_retries server_settings - retries q))
  else 0%nat.

Definition work_left {Mgr} (server_settings : Settings) (l : list (SendQueue Mgr)) : nat :=
  sum_list (attempts_left server_settings <$> l).

(** A row is as it was, or it was marked completed at some time [t]. *)
Definition same_or_completed {Mgr} (q q' : SendQueue Mgr) : Prop :=
  q' = q \/ (consumed q = true /\ completed q = false /\ exists t, q' = set_completed q t).

End QueueWork.

(** ** recieve_clone.py: what a pass may do to a transfer *)

Module CloneProgress.

Import Logger RecieveClone.

(** The journal after [log_to_database] was given a session. *)
Definition logged (sev : ErrorSeverity) (cat : ErrorCategory) (text : string)
  (j : Journal) : Journal :=
  {| lines := lines j ++ [(error_severity_to_logging_level sev, text)];
     errors := errors j ++ [new_error sev cat text] |}.

(** A transfer is as it was, or it was ONGOING and is now completed at
    some time. *)
Definition same_or_received (t t' : IncomingTransfer) : Prop :=
  t' = t \/ (status t = ONGOING /\ exists now, t' = complete t now).

End CloneProgress.

(** * Properties *)

(** ** Scenarios used to exercise the statements *)

Module Scenario.

Import ServerStore.

(** Two enabled stores, with 50 and 200 bytes free. *)
Definition small_store : Store := mkStore 1 "pot-a" "pot-a.example" "/data" None true.
Definition large_store : Store := mkStore 2 "pot-b" "pot-b.example" "/data" None true.

Definition free_space (s : Store) : Z :=
  if String.eqb (name s) "pot-a" then 50 else 200.

(** An upload of 100 bytes staged on the first store. *)
Definition upload_args : UploadArgs :=
  mkUploadArgs "pot-a" 100 "0cc175b9c0f1b6a831c399e269772661" 7 (4913579 # 2)
    "2456789/zen.2456789.5.uv" None.

Definition upload_world : World :=
  {| stores := [small_store; large_store];
     observations := ∅; files := ∅; instances := ∅;
     disks := {[ ("pot-a", "upload_100_0cc175b9c0f1b6a831c399e269772661.staging")
                 := mkPathDict (Some "uv") (Some 100)
                      (Some "0cc175b9c0f1b6a831c399e269772661") ]} |}.

(** A standing order and three files that match its search: the first
    has the success event, the second has a copy task in flight. *)
Definition nightly : Search.StandingOrder :=
  Search.mkStandingOrder "nightly" "special-test-1" "karoo".

Definition evaluation_time : Z := 1466000000.

Definition matching_file (n : string) : File :=
  mkFile n "uv" 7 None 100 "0cc175b9c0f1b6a831c399e269772661" 1465990000.

Definition three_files : Search.Env :=
  {| Search.file_table :=
       [matching_file "zen.2457545.22130.a.uv";
        matching_file "zen.2457545.22130.b.uv";
        matching_file "zen.2457545.22130.c.uv"];
     Search.event_table :=
       [Search.mkFileEvent "zen.2457545.22130.a.uv" "standing_order_succeeded:nightly"];
     Search.tasks :=
       [Search.OtherTask;
        Search.UploaderTask "2457545/zen.2457545.22130.b.uv" (Some "nightly") None] |}.

(** A queue item with two children bound for the peer "karoo": first
    with a manager that never sends, then consumed with a manager whose
    batch has arrived, with the peer known and with the peer missing. *)
Definition child (src dst : string) : Queues.OutgoingTransfer :=
  Queues.mkOutgoing "karoo" src dst 100 "0cc175b9c0f1b6a831c399e269772661" ONGOING.

Definition children : gmap Z Queues.OutgoingTransfer :=
  {[ 11 := child "/data/a.uv" "/incoming/a.uv"; 12 := child "/data/b.uv" "/incoming/b.uv" ]}.

Definition wall_clock (n : nat) : Z := 1000 + Z.of_nat n.

Definition two_retries : Queues.Settings := Queues.mkSettings 2.

Definition stuck_queue : Queues.State Queues.StubManager :=
  Queues.mkState
    [Queues.mkSendQueue 1 5 100 "karoo" [11; 12] Queues.NeverSends
       false None false None 0 false]
    children [Queues.mkLibrarian "karoo" true] (Logger.mkJournal [] []) 0.

Definition arrived_item : Queues.SendQueue Queues.StubManager :=
  Queues.mkSendQueue 2 5 100 "karoo" [11; 12] Queues.Delivered
    true (Some 900) false None 0 false.

Definition arrived_queue : Queues.State Queues.StubManager :=
  Queues.mkState [arrived_item] children [Queues.mkLibrarian "karoo" true]
    (Logger.mkJournal [] []) 0.

Definition orphan_queue : Queues.State Queues.StubManager :=
  Queues.mkState [arrived_item] children [] (Logger.mkJournal [] []) 0.

(** A store with one file staged for an incoming transfer of 100 bytes;
    the transfer row as it should be, and with a size that is one byte
    off. *)
Definition staged_disk : RecieveClone.LocalDisk :=
  {[ "/staging/zen.uv" := ("0cc175b9c0f1b6a831c399e269772661", 100) ]}.

Definition clone (expected_size : Z) : RecieveClone.IncomingTransfer :=
  RecieveClone.mkIncoming 7 "zen.uv" "karoo-bot" "karoo" expected_size
    "0cc175b9c0f1b6a831c399e269772661" "/staging/zen.uv" "/data/zen.uv"
    (Some 1) ONGOING None.

Definition receiving (expected_size : Z) : RecieveClone.State RecieveClone.LocalDisk :=
  RecieveClone.mkState [clone expected_size]
    {[ 1 := RecieveClone.mkStoreMetadata "pot-a" staged_disk ]}
    [] [] 1 [RecieveClone.mkLibrarian "karoo" true] (Logger.mkJournal [] []) [] [] 0.

(** A catalog with one local instance, and requests to delete it and to
    delete one that is not there. *)
Definition one_instance : InstancesApi.State :=
  InstancesApi.mkState {[ 4 := InstancesApi.mkInstance "/data/zen.uv" "zen.uv" 1 ]} ∅
    (Logger.mkJournal [] []).

Definition delete_present : InstancesApi.InstanceAdministrationDeleteRequest :=
  InstancesApi.mkDeleteRequest 4 "local".

Definition delete_absent : InstancesApi.InstanceAdministrationDeleteRequest :=
  InstancesApi.mkDeleteRequest 999 "local".

End Scenario.

(** ** Further scenarios *)

Module MoreScenario.

Import ServerStore.

(** The upload of [Scenario.upload_args] with 99 bytes staged instead of
    100. *)
Definition short_upload_world : World :=
  {| stores := [Scenario.small_store; Scenario.large_store];
     observations := ∅; files := ∅; instances := ∅;
     disks := {[ ("pot-a", "upload_100_0cc175b9c0f1b6a831c399e269772661.staging")
                 := mkPathDict (Some "uv") (Some 99)
                      (Some "0cc175b9c0f1b6a831c399e269772661") ]} |}.

(** A standing order whose search is not one of the built-in ones. *)
Definition free_form : Search.StandingOrder :=
  Search.mkStandingOrder "weekly" "obsid > 7" "karoo".

(** A manager that has a launch queued, and its timeout in the loop. *)
Definition queued_manager : StandingOrderManager.Process :=
  StandingOrderManager.mkProcess 0 true [90] (Search.mkEffects [] []).

(** A site with two standing orders. *)
Definition two_orders : StandingOrderPages.Site :=
  StandingOrderPages.mkSite [Scenario.nightly; free_form] [].

Definition duplicate_name (n : string) : string := "duplicate key value: " +:+ n.

(** A queue with two rows waiting, the second with the higher priority,
    and a manager that sends. *)
Definition waiting (id prio created : Z) : Queues.SendQueue Queues.StubManager :=
  Queues.mkSendQueue id prio created "karoo" [11; 12] Queues.Delivered
    false None false None 0 false.

Definition ready_queue : Queues.State Queues.StubManager :=
  Queues.mkState [waiting 1 5 100; waiting 2 9 200] Scenario.children
    [Queues.mkLibrarian "karoo" true] (Logger.mkJournal [] []) 0.

(** A manager whose batch is known to have failed. *)
Inductive LostManager : Type := Lost.

#[global] Instance lost_manager : Queues.AsyncTransferManager LostManager := {|
  Queues.batch_transfer m _ := (true, m);
  Queues.transfer_status _ := FAILED
|}.

Definition lost_item : Queues.SendQueue LostManager :=
  Queues.mkSendQueue 3 5 100 "karoo" [11; 12] Lost true (Some 900) false None 1 false.

Definition lost_queue : Queues.State LostManager :=
  Queues.mkState [lost_item] Scenario.children [Queues.mkLibrarian "karoo" true]
    (Logger.mkJournal [] []) 0.

(** An incoming transfer that names no store, and one whose peer does
    not answer. *)
Definition homeless : RecieveClone.State RecieveClone.LocalDisk :=
  RecieveClone.mkState
    [RecieveClone.mkIncoming 8 "zen.uv" "karoo-bot" "karoo" 100
       "0cc175b9c0f1b6a831c399e269772661" "/staging/zen.uv" "/data/zen.uv"
       None ONGOING None]
    {[ 1 := RecieveClone.mkStoreMetadata "pot-a" Scenario.staged_disk ]}
    [] [] 1 [RecieveClone.mkLibrarian "karoo" true] (Logger.mkJournal [] []) [] [] 0.


(** A store whose commits always fail. *)
Inductive FullDisk : Type := Full.

#[global] Instance full_store : RecieveClone.StoreManager FullDisk := {|
  RecieveClone.path_info _ p :=
    Ok (RecieveClone.mkPathInfo p "0cc175b9c0f1b6a831c399e269772661" 100);
  RecieveClone.commit _ _ _ := Raise (StoreError "no space left on device");
  RecieveClone.unstage d _ := d
|}.

Definition full : RecieveClone.State FullDisk :=
  RecieveClone.mkState [Scenario.clone 100]
    {[ 1 := RecieveClone.mkStoreMetadata "pot-a" Full ]}
    [] [] 1 [RecieveClone.mkLibrarian "karoo" true] (Logger.mkJournal [] []) [] [] 0.

End MoreScenario.

(** ** [recommended_store] *)

Module ServerStoreFacts.

Import ServerStore.

Section Scan.

Variable space : Store -> Z.

Lemma fold_max_base (l : list Z) (b : Z) : b <= fold_right Z.max b l.
Proof. induction l as [|x l IH]; cbn; lia. Qed.

Lemma fold_max_raise (l : list Z) (a b : Z) :
  a <= b -> fold_right Z.max b l = Z.max (fold_right Z.max a l) b.
Proof.
  intros Hab. induction l as [|x l IH]; cbn; [lia|]. rewrite IH. lia.
Qed.

Lemma scan_from (q : list Store) :
  forall m ms lv,
    let top := fold_right Z.max m (map space q) in
    let st := fold_left (scan_step space) q (mkScan m ms lv) in
    most_avail st = top /\
    most_avail_store st =
      (if m <? top then List.find (fun s => space s =? top) q else ms).
Proof.
  induction q as [|s q IH]; intros m ms lv; cbn [fold_left map fold_right].
  - cbn zeta. rewrite Z.ltb_irrefl. auto.
  - cbn zeta.
    replace (scan_step space (mkScan m ms lv) s)
      with (if m <? space s then mkScan (space s) (Some s) (Some s)
            else mkScan m ms (Some s)) by reflexivity.
    cbn [List.find].
    pose proof (fold_max_base (map space q) m) as Hm.
    destruct (Z.ltb_spec m (space s)) as [Hlt|Hge].
    + destruct (IH (space s) (Some s) (Some s)) as [IH1 IH2].
      cbn zeta in IH1, IH2.
      pose proof (fold_max_base (map space q) (space s)) as Hs.
      pose proof (fold_max_raise (map space q) m (space s) ltac:(lia)) as Hrel.
      set (topm := fold_right Z.max m (map space q)) in *.
      set (tops := fold_right Z.max (space s) (map space q)) in *.
      assert (Htop : Z.max (space s) topm = tops) by lia.
      rewrite Htop. split; [exact IH1|].
      rewrite IH2.
      destruct (Z.ltb_spec m tops) as [_|Hc]; [|lia].
      destruct (Z.eqb_spec (space s) tops) as [He|Hne].
      * destruct (Z.ltb_spec (space s) tops); [lia|reflexivity].
      * destruct (Z.ltb_spec (space s) tops); [reflexivity|lia].
    + destruct (IH m ms (Some s)) as [IH1 IH2].
      cbn zeta in IH1, IH2.
      set (topm := fold_right Z.max m (map space q)) in *.
      assert (Htop : Z.max (space s) topm = topm) by lia.
      rewrite Htop. split; [exact IH1|].
      rewrite IH2.
      destruct (Z.ltb_spec m topm) as [Hc|Hc]; [|reflexivity].
      destruct (Z.eqb_spec (space s) topm); [lia|reflexivity].
Qed.

Lemma scan_spec (q : list Store) :
  most_avail (scan space q) = max_space space q /\
  most_avail_store (scan space q) =
    (if -1 <? max_space space q
     then List.find (fun s => space s =? max_space space q) q else None).
Proof. exact (scan_from q (-1) None None). Qed.

(** After the loop the loop variable is the last row of the query. *)
Lemma scan_loop_variable (q : list Store) :
  forall st, store (fold_left (scan_step space) q st) =
             match last q with Some s => Some s | None => store st end.
Proof.
  induction q as [|s q IH]; intros st; [reflexivity|].
  cbn [fold_left]. rewrite IH.
  destruct q as [|s' q].
  - cbn. unfold scan_step. destruct (_ <? _); reflexivity.
  - change (last (s :: s' :: q)) with (last (s' :: q)).
    destruct (last (s' :: q)) eqn:E; [reflexivity|].
    apply last_None in E. discriminate.
Qed.

Lemma find_max_some (q : list Store) :
  -1 < max_space space q ->
  exists s, List.find (fun s => space s =? max_space space q) q = Some s.
Proof.
  unfold max_space. generalize (-1). induction q as [|s q IH]; intros b Hb.
  - cbn in Hb. lia.
  - cbn [map fold_right List.find] in *.
    destruct (Z.eqb_spec (space s) (Z.max (space s) (fold_right Z.max b (map space q))))
      as [He|Hne]; [eauto|].
    assert (Hmax : Z.max (space s) (fold_right Z.max b (map space q))
                   = fold_right Z.max b (map space q)) by lia.
    rewrite Hmax in *. apply (IH b). 
    pose proof (fold_max_base (map space q) b). lia.
Qed.

(** The statement of the rule of [recommended_store] as the code has it. *)
Lemma recommended_store_cases (stores : list Store) (file_size : Z) :
  0 <= file_size ->
  let q := List.filter available stores in
  snd (recommended_store space stores file_size) = q /\
  (max_space space q < file_size ->
   fst (recommended_store space stores file_size)
     = Raise (ServerError (msg_unable file_size))) /\
  (file_size <= max_space space q ->
   (exists s, most_avail_store (scan space q) = Some s /\
              List.find (fun s => space s =? max_space space q) q = Some s) /\
   exists i, fst (recommended_store space stores file_size) = Ok i /\
             info_available i = max_space space q).
Proof.
  intros Hfs q. unfold recommended_store.
  destruct (Z.ltb_spec file_size 0) as [Hneg|_]; [lia|].
  fold q. destruct (scan_spec q) as [Hm Hs]. rewrite Hm.
  split.
  { destruct (_ || _); [reflexivity|]. destruct (store _); reflexivity. }
  split.
  - intros Hlt. destruct (Z.ltb_spec (max_space space q) file_size); [|lia].
    reflexivity.
  - intros Hle. destruct (Z.ltb_spec (max_space space q) file_size); [lia|].
    destruct (find_max_some q ltac:(lia)) as [s Hfind].
    destruct (Z.ltb_spec (-1) (max_space space q)); [|lia].
    rewrite Hfind in Hs. rewrite Hs. cbn [is_none orb].
    split; [eauto|].
    unfold scan. rewrite scan_loop_variable.
    destruct (last q) as [l|] eqn:Hlast.
    + eexists; split; reflexivity.
    + apply last_None in Hlast. rewrite Hlast in Hfind. discriminate.
Qed.

End Scan.

(** C1. The code where it goes wrong. The table holds the 200-byte store
    first and the 50-byte store last, and 150 bytes are asked for. The
    loop of [recommended_store] does keep the 200-byte store as
    [most_avail_store], and the reply reports its 200 bytes as
    [available]; but the name, host and prefix of the reply are those of
    the 50-byte store, the last row the loop looked at, which cannot hold
    the file. So the store with the largest free space is not the one
    returned. With the same two stores in the other order the reply does
    describe the 200-byte store, and asking for 250 bytes fails with the
    "unable to find a store" error in either order. *)
Theorem recommended_store_names_last_row :
  let stores := [Scenario.large_store; Scenario.small_store] in
  let q := List.filter available stores in
  most_avail_store (scan Scenario.free_space q) = Some Scenario.large_store /\
  Scenario.free_space Scenario.large_store = max_space Scenario.free_space q /\
  (exists i,
     fst (recommended_store Scenario.free_space stores 150) = Ok i /\
     describes i Scenario.small_store /\
     ~ describes i Scenario.large_store /\
     info_available i = 200 /\
     Scenario.free_space Scenario.small_store < 150) /\
  ~ returns_largest_by_name Scenario.free_space stores 150 /\
  (exists i,
     fst (recommended_store Scenario.free_space
            [Scenario.small_store; Scenario.large_store] 150) = Ok i /\
     describes i Scenario.large_store /\
     info_available i = 200) /\
  fst (recommended_store Scenario.free_space stores 250)
    = Raise (ServerError "unable to find a store able to hold 250 bytes") /\
  fst (recommended_store Scenario.free_space
         [Scenario.small_store; Scenario.large_store] 250)
    = Raise (ServerError "unable to find a store able to hold 250 bytes").
Proof.
  cbn zeta. split; [reflexivity|]. split; [reflexivity|]. split.
  { eexists. split; [vm_compute; reflexivity|].
    split; [repeat split|]. split; [|split; [reflexivity|reflexivity]].
    intros (Hname & _). vm_compute in Hname. discriminate. }
  split.
  { intros (i & s & Hret & (Hname & _) & Hin & Hspace & _).
    vm_compute in Hret. injection Hret as <-.
    cbn in Hin. destruct Hin as [<-|[<-|[]]].
    - vm_compute in Hname. discriminate.
    - vm_compute in Hspace. discriminate. }
  split.
  { eexists. split; [vm_compute; reflexivity|]. split; [repeat split|reflexivity]. }
  split; reflexivity.
Qed.

(** C10. A negative [file_size] is refused with the "must be
    nonnegative" error whatever the catalog holds, and no store is
    queried. *)
Theorem recommended_store_negative
  (space : Store -> Z) (stores : list Store) (file_size : Z) :
  file_size < 0 ->
  recommended_store space stores file_size
    = (Raise (ServerError msg_nonnegative), []).
Proof.
  intros Hneg. unfold recommended_store.
  destruct (Z.ltb_spec file_size 0); [reflexivity|lia].
Qed.

Lemma recommended_store_negative_witness :
  -1 < 0 /\
  recommended_store Scenario.free_space
    [Scenario.small_store; Scenario.large_store] (-1)
    = (Raise (ServerError msg_nonnegative), []).
Proof.
  split; [lia|].
  apply (recommended_store_negative Scenario.free_space
           [Scenario.small_store; Scenario.large_store] (-1)).
  lia.
Defined.

End ServerStoreFacts.

(** ** [complete_upload] *)

Module CompleteUploadFacts.

Import ServerStore.

Lemma get_by_name_cases (n : string) (w : World) :
  (exists st, get_by_name n w = (Ok st, w) /\ name st = n) \/
  (exists e, get_by_name n w = (Raise e, w)).
Proof.
  unfold get_by_name.
  destruct (List.filter _ (stores w)) as [|st [|st' l]] eqn:Hf; eauto.
  left. exists st. split; [reflexivity|].
  assert (Hin : In st (List.filter (fun s => String.eqb (name s) n) (stores w)))
    by (rewrite Hf; left; reflexivity).
  apply filter_In in Hin. destruct Hin as [_ Heq].
  apply String.eqb_eq in Heq. exact Heq.
Qed.

Lemma get_by_name_same_stores (n : string) (w w' : World) (st : Store) :
  stores w' = stores w ->
  get_by_name n w = (Ok st, w) -> get_by_name n w' = (Ok st, w').
Proof.
  unfold get_by_name. intros ->.
  destruct (List.filter _ (stores w)) as [|s [|s' l]]; intros Heq;
    inversion Heq; reflexivity.
Qed.

(** [os.path] on a few paths. *)
Example dirname_basename_checks :
  dirname "2456789/zen.uv" = "2456789" /\ basename "2456789/zen.uv" = "zen.uv" /\
  dirname "zen.uv" = "" /\ basename "zen.uv" = "zen.uv" /\
  dirname "/zen.uv" = "/" /\ dirname "a//b/c" = "a//b" /\ dirname "a//b" = "a" /\
  basename "a/b/" = "" /\ dirname "a/b/" = "a/b".
Proof. repeat split; reflexivity. Qed.

(** A call that succeeds leaves the instance in the catalog, and the
    [store] table as it was. *)
Lemma complete_upload_leaves_instance
  (a : UploadArgs) (src : option string) (now : Z) (w w1 : World) :
  complete_upload a src now w = (Ok tt, w1) ->
  exists st, get_by_name (store_name a) w = (Ok st, w) /\
             name st = store_name a /\
             stores w1 = stores w /\
             is_Some (instances w1 !! instance_key st a).
Proof.
  unfold complete_upload, bind. intros Hrun.
  destruct (get_by_name_cases (store_name a) w) as [(st & Hg & Hn)|(e & Hg)];
    rewrite Hg in Hrun; [|discriminate].
  exists st. split; [exact Hg|]. split; [exact Hn|].
  unfold get_info_for_path in Hrun.
  destruct (disks w !! _) as [d|]; [|discriminate].
  unfold required_arg, ret, raise in Hrun.
  destruct (d_type d) as [ty|]; [|discriminate].
  destruct (d_size d) as [sz|]; [|discriminate].
  destruct (d_md5 d) as [m|]; [|discriminate].
  destruct (negb (sz =? size a)); [discriminate|].
  destruct (negb (String.eqb m (md5 a))); [discriminate|].
  unfold gets in Hrun.
  destruct (instances w !! _) as [fi|] eqn:Hinst.
  - cbn in Hrun. injection Hrun as <-. split; [reflexivity|].
    cbn. unfold instance_key. rewrite Hinst. eauto.
  - cbn in Hrun. injection Hrun as <-. split; [reflexivity|].
    cbn. unfold instance_key. rewrite lookup_insert_eq. eauto.
Qed.

(** With the instance in the catalog, a call changes no table, whatever
    is staged; and when the staged copy is there and matches, the call
    succeeds and only deletes that copy. *)
Lemma complete_upload_redundant
  (a : UploadArgs) (src : option string) (now : Z) (w : World) (st : Store) :
  get_by_name (store_name a) w = (Ok st, w) ->
  is_Some (instances w !! instance_key st a) ->
  catalog (snd (complete_upload a src now w)) = catalog w /\
  (forall ty,
     disks w !! (name st, stage_path_of a)
       = Some (mkPathDict (Some ty) (Some (size a)) (Some (md5 a))) ->
     complete_upload a src now w
       = (Ok tt, set_disks (delete (name st, stage_path_of a)) w)).
Proof.
  intros Hg [fi Hfi]. unfold complete_upload, bind. rewrite Hg.
  unfold get_info_for_path.
  destruct (disks w !! (name st, stage_path_of a)) as [d|] eqn:Hd.
  2:{ split; [reflexivity|]. intros ty Hty. discriminate. }
  unfold required_arg, ret, raise.
  split.
  - destruct (d_type d) as [ty|]; [|reflexivity].
    destruct (d_size d) as [sz|]; [|reflexivity].
    destruct (d_md5 d) as [m|]; [|reflexivity].
    destruct (negb (sz =? size a)); [reflexivity|].
    destruct (negb (String.eqb m (md5 a))); [reflexivity|].
    unfold gets. unfold instance_key in Hfi. rewrite Hfi. reflexivity.
  - intros ty Hty. injection Hty as ->. cbn [d_type d_size d_md5].
    rewrite Z.eqb_refl, String.eqb_refl. cbn [negb].
    unfold gets. unfold instance_key in Hfi. rewrite Hfi. reflexivity.
Qed.

(** C7. After a call of [complete_upload] that succeeded, a second call
    with the same arguments changes no row of the catalog, whatever the
    stores hold by then; and when a staged copy of the right size and MD5
    is there again, the second call succeeds, deletes that copy, and moves
    nothing. *)
Theorem complete_upload_twice
  (a : UploadArgs) (src : option string) (now : Z) (w w1 : World) :
  complete_upload a src now w = (Ok tt, w1) ->
  forall (src' : option string) (now' : Z) (staged : gmap (string * string) PathDict),
    let w2 := set_disks (fun _ => staged) w1 in
    catalog (snd (complete_upload a src' now' w2)) = catalog w1 /\
    (forall ty,
       staged !! (store_name a, stage_path_of a)
         = Some (mkPathDict (Some ty) (Some (size a)) (Some (md5 a))) ->
       complete_upload a src' now' w2
         = (Ok tt, set_disks (delete (store_name a, stage_path_of a)) w2)).
Proof.
  intros Hfirst src' now' staged w2.
  destruct (complete_upload_leaves_instance a src now w w1 Hfirst)
    as (st & Hg & Hn & Hst & Hinst).
  assert (Hg2 : get_by_name (store_name a) w2 = (Ok st, w2)).
  { apply (get_by_name_same_stores _ w); [exact Hst | exact Hg]. }
  destruct (complete_upload_redundant a src' now' w2 st Hg2 Hinst) as [Hcat Hdel].
  split; [exact Hcat|].
  intros ty Hty. rewrite <- Hn. apply (Hdel ty). rewrite Hn. exact Hty.
Qed.

Lemma complete_upload_twice_witness :
  let w1 := snd (complete_upload Scenario.upload_args None 1000 Scenario.upload_world) in
  complete_upload Scenario.upload_args None 1000 Scenario.upload_world = (Ok tt, w1) /\
  complete_upload Scenario.upload_args None 2000
    (set_disks (fun _ => disks Scenario.upload_world) w1)
  = (Ok tt, set_disks (fun _ => ∅) w1).
Proof.
  intros w1.
  assert (Hfirst : complete_upload Scenario.upload_args None 1000 Scenario.upload_world
                   = (Ok tt, w1)) by (vm_compute; reflexivity).
  split; [exact Hfirst|].
  destruct (complete_upload_twice _ _ _ _ _ Hfirst None 2000
              (disks Scenario.upload_world)) as [_ Hdel].
  rewrite (Hdel "uv"); [|reflexivity].
  vm_compute. reflexivity.
Defined.

End CompleteUploadFacts.

(** ** Standing orders *)

Module SearchFacts.

Import ServerStore Search.

(** [LIKE] on a few names. *)
Example like_checks :
  like "%22130%" "zen.2457545.22130.a.uv" = true /\
  like "%22130%" "zen.2457545.2213.a.uv" = false /\
  like "zen%HH.uvc" "zen.2457545.HH.uvc" = true /\
  like "zen%HH.uvc" "zenHH.uvc" = true /\
  like "zen%HH.uvc" "zen.HH.uv" = false /\
  like "a_c" "abc" = true /\ like "a_c" "ac" = false.
Proof. repeat split; reflexivity. Qed.

Lemma select_files_subset (search : string) (now : Z) (table A : list File) :
  select_files search now table = Ok A -> forall f, In f A -> In f table.
Proof.
  unfold select_files. intros Hsel f Hin.
  repeat (destruct (String.eqb search _);
          [injection Hsel as <-; apply filter_In in Hin; tauto|]).
  discriminate.
Qed.

Lemma filter_sublist {A} (p : A -> bool) (l : list A) : sublist (List.filter p l) l.
Proof.
  induction l as [|x l IH]; cbn; [constructor|].
  destruct (p x); constructor; exact IH.
Qed.

Lemma in_names_In (n : string) (l : list string) : in_names n l = true <-> In n l.
Proof.
  unfold in_names. rewrite existsb_exists. split.
  - intros (x & Hin & Heq). apply String.eqb_eq in Heq. subst. exact Hin.
  - intros Hin. exists n. split; [exact Hin | apply String.eqb_refl].
Qed.

Lemma already_done_spec (o : StandingOrder) (env : Env) (f : File) :
  In f (file_table env) ->
  (In (file_name f) (already_done o env) <-> has_success_event o env f).
Proof.
  intros Hf. unfold already_done, has_success_event. rewrite in_flat_map. split.
  - intros (f' & _ & Hin). apply in_flat_map in Hin. destruct Hin as (e & He & Hin).
    destruct (String.eqb (ev_name e) (file_name f')) eqn:E1; [|destruct Hin].
    destruct (String.eqb (ev_type e) (event_type o)) eqn:E2; [|destruct Hin].
    cbn in Hin. destruct Hin as [Hn|[]].
    apply String.eqb_eq in E1, E2. exists e. repeat split; congruence.
  - intros (e & He & Hn & Ht). exists f. split; [exact Hf|].
    apply in_flat_map. exists e. split; [exact He|].
    rewrite Hn, Ht, !String.eqb_refl. left. reflexivity.
Qed.

Lemma already_launched_spec (o : StandingOrder) (env : Env) (f : File) :
  file_name f ∈ already_launched o env <-> has_task_in_flight o env f.
Proof.
  unfold already_launched, has_task_in_flight.
  rewrite elem_of_list_to_set, list_elem_of_In, in_flat_map. split.
  - intros ([sp so ex|] & Ht & Hin); [|destruct Hin].
    destruct (bool_decide _) eqn:Hso; [|destruct Hin].
    destruct ex as [x|]; [destruct Hin|].
    cbn in Hin. destruct Hin as [Hn|[]].
    apply bool_decide_eq_true in Hso. subst so. eauto.
  - intros (sp & Ht & Hn). exists (UploaderTask sp (Some (so_name o)) None).
    split; [exact Ht|].
    rewrite bool_decide_eq_true_2 by reflexivity. cbn. left. exact Hn.
Qed.

Section Launch.

Variable no_instance_available : string -> string -> bool.

Lemma launch_each_launches (o : StandingOrder) (l : list File) :
  forall e, exists lg,
    launch_each no_instance_available o l e
    = (Ok tt, {| launches := launches e ++ map (call_for o) l; log := lg |}).
Proof.
  induction l as [|f l IH]; intros e.
  - exists (log e). cbn. unfold ret. rewrite app_nil_r. destruct e; reflexivity.
  - cbn [launch_each]. unfold bind, log_line, modify, launch_copy_by_file_name.
    cbn [launches log].
    destruct (no_instance_available (file_name f) (so_conn_name o));
      cbn [launches log ret].
    + match goal with |- context [launch_each _ o l ?e'] =>
        destruct (IH e') as [lg Hlg]; rewrite Hlg end.
      exists lg. cbn [launches log map]. rewrite <- app_assoc. reflexivity.
    + unfold ret.
      match goal with |- context [launch_each _ o l ?e'] =>
        destruct (IH e') as [lg Hlg]; rewrite Hlg end.
      exists lg. cbn [launches log map]. rewrite <- app_assoc. reflexivity.
Qed.

End Launch.

(** C8. When the search of a standing order gives the files [A], one
    evaluation asks for a copy, to the destination of the order and
    tagged with its name, of each file of [A] that has neither the
    success event of the order nor a task in flight for it without
    exception, once per row and in the order of [A], and of no other
    file. With three matching files, one with the event and one with a
    task in flight, it launches exactly one copy. *)
Theorem maybe_launch_copies_exact
  (no_instance_available : string -> string -> bool)
  (o : StandingOrder) (now : Z) (env : Env) (A : list File) :
  select_files (so_search o) now (file_table env) = Ok A ->
  (exists L lg,
     maybe_launch_copies no_instance_available o now env (mkEffects [] [])
     = (Ok tt, {| launches := map (call_for o) L; log := lg |}) /\
     sublist L A /\
     forall f, In f L <->
               In f A /\ ~ has_success_event o env f /\ ~ has_task_in_flight o env f) /\
  launches (snd (maybe_launch_copies (fun _ _ => false) Scenario.nightly
                   Scenario.evaluation_time Scenario.three_files (mkEffects [] [])))
  = [mkLaunchCall "zen.2457545.22130.c.uv" "karoo" "nightly" "return"].
Proof.
  intros Hsel. split; [|vm_compute; reflexivity].
  unfold maybe_launch_copies, get_files_to_copy. rewrite Hsel.
  unfold bind, log_line, modify.
  set (L := List.filter _ (List.filter _ A)).
  match goal with |- context [launch_each _ o L ?e'] =>
    destruct (launch_each_launches no_instance_available o L e') as [lg Hlg] end.
  exists L, lg. split; [exact Hlg|]. split.
  - subst L. etransitivity; apply filter_sublist.
  - intros f. subst L. rewrite !filter_In. split.
    + intros [[HA Hdone] Hlaunched]. split; [exact HA|].
      apply negb_true_iff in Hdone. apply bool_decide_eq_true in Hlaunched.
      pose proof (select_files_subset _ _ _ _ Hsel f HA) as Hf.
      split.
      * intros Hev. apply (already_done_spec o env f Hf) in Hev.
        apply in_names_In in Hev. congruence.
      * intros Htask. apply already_launched_spec in Htask. contradiction.
    + intros (HA & Hev & Htask).
      pose proof (select_files_subset _ _ _ _ Hsel f HA) as Hf.
      split; [split; [exact HA|]|].
      * apply negb_true_iff. destruct (in_names _ _) eqn:E; [|reflexivity].
        exfalso. apply Hev. apply (already_done_spec o env f Hf).
        apply in_names_In. exact E.
      * apply bool_decide_eq_true. intros Hl. apply Htask.
        apply already_launched_spec. exact Hl.
Qed.

Lemma maybe_launch_copies_exact_witness :
  select_files "special-test-1" Scenario.evaluation_time
    (file_table Scenario.three_files)
  = Ok (file_table Scenario.three_files) /\
  exists L lg,
    maybe_launch_copies (fun _ _ => true) Scenario.nightly Scenario.evaluation_time
      Scenario.three_files (mkEffects [] [])
    = (Ok tt, {| launches := map (call_for Scenario.nightly) L; log := lg |}) /\
    sublist L (file_table Scenario.three_files).
Proof.
  assert (Hsel : select_files (so_search Scenario.nightly) Scenario.evaluation_time
                   (file_table Scenario.three_files)
                 = Ok (file_table Scenario.three_files)) by (vm_compute; reflexivity).
  split; [exact Hsel|].
  destruct (maybe_launch_copies_exact (fun _ _ => true) Scenario.nightly
              Scenario.evaluation_time Scenario.three_files _ Hsel)
    as [(L & lg & Hrun & Hsub & _) _].
  exists L, lg. split; [exact Hrun | exact Hsub].
Defined.

End SearchFacts.

(** ** The send queue *)

Module QueuesFacts.

Import Logger Queues.

Section WithManager.

Context {Mgr : Type} `{AsyncTransferManager Mgr}.
Variable clock : nat -> Z.
Variable server_settings : Settings.

Lemma first_row_In (l : list (nat * SendQueue Mgr)) (x : nat * SendQueue Mgr) :
  first_row l = Some x -> In x l.
Proof.
  revert x. induction l as [|y l IH]; intros x; cbn; [discriminate|].
  destruct (first_row l) as [z|].
  - destruct (before (snd z) (snd y)); intros [= <-]; auto.
  - intros [= <-]. auto.
Qed.

Lemma rows_where_lookup (p : SendQueue Mgr -> bool) (l : list (SendQueue Mgr))
  (i : nat) (q : SendQueue Mgr) :
  In (i, q) (rows_where p l) -> l !! i = Some q /\ p q = true.
Proof.
  unfold rows_where. rewrite filter_In. intros [Hin Hp]. split; [|exact Hp].
  apply list_elem_of_In, elem_of_lookup_imap in Hin.
  destruct Hin as (j & y & [= -> ->] & Hl). exact Hl.
Qed.

(** The table of transfers after [f] was applied to each id of [ids]. *)
Lemma for_each_alter (f : OutgoingTransfer -> OutgoingTransfer) (ids : list Z) :
  forall s : State Mgr,
    for_each (alter_transfer f) ids s
    = (Ok tt, mkState (send_queue s) (alter_all f ids (outgoing s)) (librarians s)
                (journal s) (reads s)).
Proof.
  induction ids as [|k ids IH]; intros s.
  - destruct s; reflexivity.
  - cbn [for_each]. unfold bind, alter_transfer at 1, modify. rewrite IH.
    reflexivity.
Qed.

Lemma alter_all_lookup (f : OutgoingTransfer -> OutgoingTransfer) (ids : list Z) :
  (forall t, f (f t) = f t) ->
  forall (m : gmap Z OutgoingTransfer) (k : Z),
    alter_all f ids m !! k = if decide (k ∈ ids) then f <$> m !! k else m !! k.
Proof.
  intros Hidem. induction ids as [|j ids IH]; intros m k; cbn [alter_all foldl].
  - rewrite decide_False by apply not_elem_of_nil. reflexivity.
  - unfold alter_all in IH. rewrite IH. rewrite lookup_alter.
    destruct (decide (j = k)) as [->|Hne].
    + rewrite (decide_True (P := k ∈ k :: ids)) by apply list_elem_of_here.
      destruct (decide (k ∈ ids)); [|reflexivity].
      destruct (m !! k); cbn; [rewrite Hidem|]; reflexivity.
    + destruct (decide (k ∈ ids)) as [Hi|Hi].
      * rewrite decide_True by (apply list_elem_of_further; exact Hi). reflexivity.
      * rewrite decide_False; [reflexivity|].
        rewrite elem_of_cons. intros [Hc|Hc]; [congruence|contradiction].
Qed.

Lemma set_status_idem (x : TransferStatus) (t : OutgoingTransfer) :
  set_status x (set_status x t) = set_status x t.
Proof. reflexivity. Qed.

Lemma alter_all_children (x : TransferStatus) (ids : list Z)
  (m : gmap Z OutgoingTransfer) (k : Z) (t : OutgoingTransfer) :
  In k ids -> m !! k = Some t ->
  alter_all (set_status x) ids m !! k = Some (set_status x t).
Proof.
  intros Hin Hk. rewrite alter_all_lookup by apply set_status_idem.
  rewrite decide_True by (apply list_elem_of_In; exact Hin).
  rewrite Hk. reflexivity.
Qed.

(** What [consume_queue_item] does with the row it takes when
    [batch_transfer] says no. *)
Lemma consume_failure (s : State Mgr) (i : nat) (q : SendQueue Mgr) :
  first_row (rows_where pending (send_queue s)) = Some (i, q) ->
  fst (batch_transfer (async_transfer_manager q) (transfer_list_of (outgoing s) q))
    = false ->
  send_queue s !! i = Some q /\ consumed q = false /\ completed q = false /\
  consume_queue_item clock server_settings s
  = (Ok true,
     if max_async_send_retries server_settings <? retries q + 1
     then mkState (<[i := set_failed (add_retry q)]> (send_queue s))
            (alter_all (set_status FAILED) (transfers q) (outgoing s))
            (librarians s) (journal s) (reads s)
     else mkState (<[i := add_retry q]> (send_queue s)) (outgoing s)
            (librarians s) (journal s) (reads s)).
Proof.
  intros Hrow Hfail.
  pose proof (first_row_In _ _ Hrow) as Hin.
  apply rows_where_lookup in Hin. destruct Hin as [Hl Hp].
  unfold pending in Hp. apply andb_true_iff in Hp. destruct Hp as [Hc Hd].
  apply negb_true_iff in Hc, Hd.
  split; [exact Hl|]. split; [exact Hd|]. split; [exact Hc|].
  unfold consume_queue_item, bind, gets. rewrite Hrow.
  destruct (batch_transfer _ _) as [success m]. cbn in Hfail. subst success.
  unfold set_row at 1, modify. cbn [send_queue outgoing librarians journal reads].
  change (retries (add_retry q)) with (retries q + 1).
  destruct (_ <? _).
  - unfold fail, bind, fail_transfer. rewrite for_each_alter.
    unfold set_row, modify, ret. cbn [send_queue outgoing librarians journal reads].
    rewrite list_insert_insert_eq. reflexivity.
  - reflexivity.
Qed.

(** The three ways the body of the loop of [check_on_consumed] treats an
    item whose probe says COMPLETED, for the status STAGED. *)
Lemma check_item_arrived (s : State Mgr) (q : SendQueue Mgr) :
  transfer_status (async_transfer_manager q) = COMPLETED ->
  check_item STAGED q s =
  match List.find (fun l => String.eqb (lib_name l) (destination q)) (librarians s) with
  | Some l =>
      if reachable l
      then (Ok Reached_end,
            mkState (send_queue s) (alter_all (set_status STAGED) (transfers q) (outgoing s))
              (librarians s) (journal s) (reads s))
      else (Ok Continue,
            mkState (send_queue s) (outgoing s) (librarians s)
              (warned q l (journal s)) (reads s))
  | None =>
      (Raise (TypeError
                "log_to_database() missing 1 required positional argument: 'session'"),
       s)
  end.
Proof.
  intros Hprobe. unfold check_item. rewrite Hprobe.
  rewrite decide_True by reflexivity.
  unfold try_except, bind, update_transfer_status, bind, gets.
  destruct (List.find _ (librarians s)) as [l|].
  - destruct (reachable l).
    + rewrite for_each_alter. reflexivity.
    + reflexivity.
  - unfold raise, on_journal. cbn. destruct s; reflexivity.
Qed.

Lemma check_item_unsupported (cs : TransferStatus) (s : State Mgr) (q : SendQueue Mgr) :
  transfer_status (async_transfer_manager q) = COMPLETED ->
  cs <> STAGED ->
  check_item cs q s = (Raise (ValueError msg_only_staged), s).
Proof.
  intros Hprobe Hcs. unfold check_item. rewrite Hprobe.
  rewrite decide_False by exact Hcs. reflexivity.
Qed.

Lemma check_loop_head (timeout_after : Z) (cs : TransferStatus)
  (i : nat) (q : SendQueue Mgr) (rest : list (nat * SendQueue Mgr)) (s : State Mgr) :
  clock (reads s) <= timeout_after ->
  check_loop clock timeout_after cs ((i, q) :: rest) s =
  match check_item cs q (ticked s) with
  | (Ok Continue, s') => check_loop clock timeout_after cs rest s'
  | (Ok Reached_end, s') =>
      check_loop clock timeout_after cs rest
        (mkState (<[i := set_completed q (clock (reads s'))]> (send_queue s'))
           (outgoing s') (librarians s') (journal s') (S (reads s')))
  | (Raise e, s') => (Raise e, s')
  end.
Proof.
  intros Hdeadline. cbn [check_loop]. unfold bind at 1, now at 1.
  destruct (Z.ltb_spec timeout_after (clock (reads s))) as [Hlate|_]; [lia|].
  unfold bind at 1. fold (ticked s).
  destruct (check_item cs q (ticked s)) as [[[|]|e] s']; reflexivity.
Qed.

End WithManager.

(** C6. When [batch_transfer] fails for the item [consume_queue_item]
    takes, the row gets one more retry and stays unconsumed; once the
    retries exceed [max_async_send_retries] the row is also marked failed
    and completed and every child it has becomes FAILED; below that
    nothing else changes. With a manager that never sends and a limit of
    2, three calls leave the row with 3 retries, failed, with both
    children FAILED; and so do three runs of the consumer task, whose
    loop ends once the queue has nothing left to take. *)
Theorem consume_queue_item_failure
  {Mgr : Type} `{AsyncTransferManager Mgr}
  (clock : nat -> Z) (server_settings : Settings)
  (s : State Mgr) (i : nat) (q : SendQueue Mgr) :
  first_row (rows_where pending (send_queue s)) = Some (i, q) ->
  fst (batch_transfer (async_transfer_manager q) (transfer_list_of (outgoing s) q))
    = false ->
  (let r := consume_queue_item clock server_settings s in
   send_queue s !! i = Some q /\
   fst r = Ok true /\
   exists q',
     send_queue (snd r) = <[i := q']> (send_queue s) /\
     send_queue (snd r) !! i = Some q' /\
     retries q' = retries q + 1 /\
     consumed q' = false /\
     transfers q' = transfers q /\
     if max_async_send_retries server_settings <? retries q'
     then failed q' = true /\ completed q' = true /\
          forall id t, In id (transfers q) -> outgoing s !! id = Some t ->
                       outgoing (snd r) !! id = Some (set_status FAILED t)
     else failed q' = failed q /\ completed q' = false /\
          outgoing (snd r) = outgoing s) /\
  (let tick := fun s => snd (consume_queue_item Scenario.wall_clock
                               Scenario.two_retries s) in
   let s3 := tick (tick (tick Scenario.stuck_queue)) in
   (fun q' => (retries q', failed q', completed q', consumed q')) <$> send_queue s3 !! 0%nat
     = Some (3, true, true, false) /\
   status <$> outgoing s3 !! 11 = Some FAILED /\
   status <$> outgoing s3 !! 12 = Some FAILED) /\
  (let run := fun s => ConsumeQueue_core Scenario.wall_clock Scenario.two_retries
                         10 None s in
   let s3 := snd (run (snd (run (snd (run Scenario.stuck_queue))))) in
   fst (run Scenario.stuck_queue) = Ok true /\
   (fun q' => (retries q', failed q', completed q', consumed q')) <$> send_queue s3 !! 0%nat
     = Some (3, true, true, false) /\
   status <$> outgoing s3 !! 11 = Some FAILED /\
   status <$> outgoing s3 !! 12 = Some FAILED).
Proof.
  intros Hrow Hfail. split; [|split; vm_compute; repeat split; reflexivity].
  destruct (consume_failure clock server_settings s i q Hrow Hfail)
    as (Hl & Hd & Hc & Hrun).
  cbn zeta. rewrite Hrun. cbn [fst snd]. split; [exact Hl|]. split; [reflexivity|].
  pose proof (lookup_lt_Some _ _ _ Hl) as Hlen.
  change (retries q + 1) with (retries (add_retry q)) in *.
  destruct (max_async_send_retries server_settings <? retries (add_retry q)) eqn:Hover.
  - exists (set_failed (add_retry q)). cbn [send_queue outgoing].
    split; [reflexivity|]. split; [apply list_lookup_insert_eq; exact Hlen|].
    split; [reflexivity|]. split; [exact Hd|]. split; [reflexivity|].
    change (retries (set_failed (add_retry q))) with (retries (add_retry q)).
    rewrite Hover. split; [reflexivity|]. split; [reflexivity|].
    intros id t Hin Hid. apply alter_all_children; assumption.
  - exists (add_retry q). cbn [send_queue outgoing].
    split; [reflexivity|]. split; [apply list_lookup_insert_eq; exact Hlen|].
    split; [reflexivity|]. split; [exact Hd|]. split; [reflexivity|].
    rewrite Hover. split; [reflexivity|]. split; [exact Hc|]. reflexivity.
Qed.

Lemma consume_queue_item_failure_witness :
  let r := consume_queue_item Scenario.wall_clock Scenario.two_retries
             Scenario.stuck_queue in
  fst r = Ok true /\
  exists q', send_queue (snd r) !! 0%nat = Some q' /\ retries q' = 1 /\ consumed q' = false.
Proof.
  destruct (@consume_queue_item_failure StubManager stub_manager
              Scenario.wall_clock Scenario.two_retries
              Scenario.stuck_queue 0%nat
              (mkSendQueue 1 5 100 "karoo" [11; 12] NeverSends false None false None 0 false)
              ltac:(reflexivity) ltac:(reflexivity))
    as [(_ & Hok & q' & _ & Hl & Hr & Hc & _) _].
  split; [exact Hok|]. exists q'. split; [exact Hl|]. split; [exact Hr | exact Hc].
Defined.

(** C3, as amended. When the loop of [check_on_consumed] reaches, before
    the deadline, an item whose probe says COMPLETED: with the status
    STAGED (the default, and the only one supported) and a destination
    that is in the catalog and answers, every child of the item is set to
    STAGED, the row is marked completed, and the loop goes on to the next
    item; with a destination that does not answer, a WARNING is logged,
    nothing else changes, and the loop goes on; with any other configured
    status the call raises [ValueError]. *)
Theorem check_on_consumed_arrived
  {Mgr : Type} `{AsyncTransferManager Mgr}
  (clock : nat -> Z) (timeout_after : Z)
  (i : nat) (q : SendQueue Mgr) (rest : list (nat * SendQueue Mgr)) (s : State Mgr) :
  transfer_status (async_transfer_manager q) = COMPLETED ->
  clock (reads s) <= timeout_after ->
  default_complete_status = STAGED /\
  (forall l,
     List.find (fun l => String.eqb (lib_name l) (destination q)) (librarians s) = Some l ->
     reachable l = true ->
     let outs := alter_all (set_status STAGED) (transfers q) (outgoing s) in
     check_loop clock timeout_after STAGED ((i, q) :: rest) s
     = check_loop clock timeout_after STAGED rest
         (mkState (<[i := set_completed q (clock (S (reads s)))]> (send_queue s))
            outs (librarians s) (journal s) (S (S (reads s)))) /\
     forall id t, In id (transfers q) -> outgoing s !! id = Some t ->
                  outs !! id = Some (set_status STAGED t)) /\
  (forall l,
     List.find (fun l => String.eqb (lib_name l) (destination q)) (librarians s) = Some l ->
     reachable l = false ->
     check_loop clock timeout_after STAGED ((i, q) :: rest) s
     = check_loop clock timeout_after STAGED rest
         (mkState (send_queue s) (outgoing s) (librarians s)
            (warned q l (journal s)) (S (reads s)))) /\
  (forall cs, cs <> STAGED ->
     check_loop clock timeout_after cs ((i, q) :: rest) s
     = (Raise (ValueError msg_only_staged), ticked s)).
Proof.
  intros Hprobe Hdeadline. split; [reflexivity|]. split; [|split].
  - intros l Hl Hr outs. split.
    + rewrite check_loop_head by exact Hdeadline.
      rewrite check_item_arrived by exact Hprobe.
      cbn [librarians ticked]. rewrite Hl, Hr. reflexivity.
    + intros id t Hin Hid. apply alter_all_children; assumption.
  - intros l Hl Hr.
    rewrite check_loop_head by exact Hdeadline.
    rewrite check_item_arrived by exact Hprobe.
    cbn [librarians ticked]. rewrite Hl, Hr. reflexivity.
  - intros cs Hcs.
    rewrite check_loop_head by exact Hdeadline.
    rewrite check_item_unsupported by assumption. reflexivity.
Qed.

Lemma check_on_consumed_arrived_witness :
  transfer_status (async_transfer_manager Scenario.arrived_item) = COMPLETED /\
  Scenario.wall_clock 0 <= 5000 /\
  check_loop Scenario.wall_clock 5000 STAGED [(0%nat, Scenario.arrived_item)]
    Scenario.arrived_queue
  = (Ok true,
     mkState [set_completed Scenario.arrived_item 1001]
       (alter_all (set_status STAGED) [11; 12] Scenario.children)
       [mkLibrarian "karoo" true] (mkJournal [] []) 2).
Proof.
  split; [reflexivity|]. split; [vm_compute; discriminate|].
  destruct (@check_on_consumed_arrived StubManager stub_manager
              Scenario.wall_clock 5000 0%nat
              Scenario.arrived_item [] Scenario.arrived_queue
              ltac:(reflexivity) ltac:(vm_compute; discriminate))
    as (_ & Hok & _ & _).
  destruct (Hok (mkLibrarian "karoo" true) ltac:(reflexivity) ltac:(reflexivity))
    as [Hrun _].
  rewrite Hrun. reflexivity.
Defined.

(** C3 as the specification states it fails: a task configured with the
    status COMPLETED raises [ValueError] on an item whose batch has
    arrived, and sets no child. *)
Lemma check_on_consumed_other_status_raises :
  ~ sets_children_without_raising Scenario.wall_clock 5000 COMPLETED
      Scenario.arrived_queue.
Proof.
  unfold sets_children_without_raising. intros Hclaim.
  destruct (Hclaim 0%nat Scenario.arrived_item ltac:(left; reflexivity)
              ltac:(reflexivity)) as [Hok _].
  vm_compute in Hok. discriminate.
Qed.

(** C4: the code at the failing input. The destination of the item is
    not in the catalog: the call ends with the [TypeError] of the
    [log_to_database] call that leaves [session] out; nothing has been
    logged and the row is still not completed. *)
Theorem check_on_consumed_missing_librarian :
  check_on_consumed Scenario.wall_clock 5000 STAGED Scenario.orphan_queue
  = (Raise (TypeError
              "log_to_database() missing 1 required positional argument: 'session'"),
     mkState [Scenario.arrived_item] Scenario.children [] (mkJournal [] []) 1) /\
  completed Scenario.arrived_item = false.
Proof. split; [vm_compute|]; reflexivity. Qed.

End QueuesFacts.

(** ** Incoming clones *)

Module RecieveCloneFacts.

Import Logger RecieveClone.

Section WithStore.

Context {D : Type} `{StoreManager D}.
Variable clock : nat -> Z.
Variable self : Task.

(** The body of the loop on a transfer whose staged bytes are not the
    expected ones. *)
Lemma core_body_mismatch (s : State D) (i : nat) (t : IncomingTransfer)
  (k : Z) (st : StoreMetadata D) (info : PathInfo) :
  store t = Some k ->
  stores s !! k = Some st ->
  path_info (store_manager st) (staging_path t) = Ok info ->
  md5 info <> transfer_checksum t \/ size info <> transfer_size t ->
  core_body clock self i t s
  = (Ok true, set_journal (log INFO (msg_not_yet t) (journal s)) s).
Proof.
  intros Hk Hst Hinfo Hdiff.
  unfold core_body, bind, gets, store_of. rewrite Hk, Hst. cbn [fmap option_fmap option_map].
  rewrite Hinfo.
  assert (Htest : String.eqb (md5 info) (transfer_checksum t)
                  && (size info =? transfer_size t) = false).
  { apply andb_false_iff. destruct Hdiff as [Hd|Hd].
    - left. apply String.eqb_neq. exact Hd.
    - right. apply Z.eqb_neq. exact Hd. }
  rewrite Htest. reflexivity.
Qed.

(** The body of the loop on a transfer whose staged bytes match and
    whose commit succeeds: the state before the callback. *)
Lemma core_body_match (s : State D) (i : nat) (t : IncomingTransfer)
  (k : Z) (st : StoreMetadata D) (info : PathInfo) (d : D) :
  store t = Some k ->
  stores s !! k = Some st ->
  path_info (store_manager st) (staging_path t) = Ok info ->
  md5 info = transfer_checksum t ->
  size info = transfer_size t ->
  commit (store_manager st) (staging_path t) (store_path t) = Ok d ->
  exists j ps,
    core_body clock self i t s
    = (Ok true,
       mkState (<[i := complete t (clock (reads s))]> (incoming s))
         (<[k := mkStoreMetadata (store_name st) (unstage d (staging_path t))]> (stores s))
         (files s ++ [new_file (upload_name t) (transfer_checksum t) (transfer_size t)
                        (uploader t) (source t)])
         (instances s ++ [mkInstance (next_instance_id s) (path info) (upload_name t) k
                            (task_deletion_policy self) true])
         (next_instance_id s + 1) (librarians s) j ps
         (store_calls s ++ [Commit k (staging_path t) (store_path t);
                            Unstage k (staging_path t)])
         (S (reads s))).
Proof.
  intros Hk Hst Hinfo Hmd5 Hsize Hcommit.
  unfold core_body, bind, gets, store_of. rewrite Hk, Hst. cbn [fmap option_fmap option_map].
  rewrite Hinfo, Hmd5, Hsize, String.eqb_refl, Z.eqb_refl. cbn [andb].
  unfold logger_info at 1, modify. rewrite Hcommit.
  unfold store_did, add_file_and_instance, utcnow, set_transfer, modify.
  cbn [incoming stores files instances next_instance_id librarians journal posts
       store_calls reads set_journal].
  destruct (List.find _ (librarians s)) as [l|].
  - unfold bind, logger_info, modify, try_except, post.
    destruct (answers l).
    + unfold modify, ret.
      cbn [incoming stores files instances next_instance_id librarians journal posts
           store_calls reads set_journal].
      rewrite insert_insert_eq, <- app_assoc. eauto.
    + unfold raise, on_journal, log_to_database, modify, ret.
      cbn [incoming stores files instances next_instance_id librarians journal posts
           store_calls reads set_journal].
      rewrite insert_insert_eq, <- app_assoc. eauto.
  - unfold logger_error, modify, ret.
    cbn [incoming stores files instances next_instance_id librarians journal posts
         store_calls reads set_journal].
    rewrite insert_insert_eq, <- app_assoc. eauto.
Qed.

(** A pass over a table with a single transfer, ONGOING, is the body of
    the loop on that transfer. *)
Lemma core_single (s : State D) (t : IncomingTransfer) :
  incoming s = [t] -> status t = ONGOING ->
  core clock self s = core_body clock self 0%nat t s.
Proof.
  intros Hinc Hst. unfold core, bind at 1, gets. rewrite Hinc.
  cbn [imap List.filter snd]. rewrite bool_decide_eq_true_2 by exact Hst.
  cbn [length Nat.eqb]. unfold bind at 1, ret at 1. cbn [core_loop].
  unfold bind. destruct (core_body clock self 0%nat t s) as [[[|]|e] s']; reflexivity.
Qed.

(** A pass in which every ONGOING transfer is still in flight changes
    nothing but the log lines. *)
Lemma core_loop_all_mismatch (rows : list (nat * IncomingTransfer)) :
  forall (s : State D) (flag : bool),
    (forall i t, In (i, t) rows ->
       exists k st info,
         store t = Some k /\ stores s !! k = Some st /\
         path_info (store_manager st) (staging_path t) = Ok info /\
         (md5 info <> transfer_checksum t \/ size info <> transfer_size t)) ->
    exists ls,
      core_loop clock self rows flag s
      = (Ok flag, set_journal (mkJournal (lines (journal s) ++ ls) (errors (journal s))) s)
      /\ Forall (fun l => fst l = INFO) ls.
Proof.
  induction rows as [|[i t] rows IH]; intros s flag Hall.
  - exists []. cbn. unfold ret. rewrite app_nil_r. destruct s as [? ? ? ? ? ? [? ?] ? ? ?].
    split; [reflexivity | constructor].
  - destruct (Hall i t ltac:(left; reflexivity)) as (k & st & info & Hk & Hst & Hi & Hd).
    cbn [core_loop]. unfold bind at 1.
    rewrite (core_body_mismatch s i t k st info Hk Hst Hi Hd).
    rewrite andb_true_r.
    assert (Hrest : forall i' t', In (i', t') rows ->
              exists k st info,
                store t' = Some k /\
                stores (set_journal (log INFO (msg_not_yet t) (journal s)) s) !! k = Some st /\
                path_info (store_manager st) (staging_path t') = Ok info /\
                (md5 info <> transfer_checksum t' \/ size info <> transfer_size t')).
    { intros i' t' Hin. apply (Hall i'). right. exact Hin. }
    destruct (IH _ flag Hrest) as (ls & Hrun & Hls).
    exists ((INFO, msg_not_yet t) :: ls). split; [|constructor; [reflexivity | exact Hls]].
    rewrite Hrun. cbn. rewrite <- app_assoc. reflexivity.
Qed.

End WithStore.

(** The path the new instance row records is the one [path_info]
    reported for the staged file. *)
Remark core_body_instance_path {D : Type} `{StoreManager D}
  (clock : nat -> Z) (self : Task) (s : State D) (i : nat) (t : IncomingTransfer)
  (k : Z) (st : StoreMetadata D) (info : PathInfo) (d : D) :
  store t = Some k ->
  stores s !! k = Some st ->
  path_info (store_manager st) (staging_path t) = Ok info ->
  md5 info = transfer_checksum t ->
  size info = transfer_size t ->
  commit (store_manager st) (staging_path t) (store_path t) = Ok d ->
  inst_path <$> last (instances (snd (core_body clock self i t s))) = Some (path info).
Proof.
  intros Hk Hst Hinfo Hmd5 Hsize Hcommit.
  destruct (core_body_match clock self s i t k st info d Hk Hst Hinfo Hmd5 Hsize Hcommit)
    as (j & ps & ->).
  cbn [snd instances]. rewrite last_snoc. reflexivity.
Qed.

(** C2. The code where it goes wrong. A file of 100 bytes is staged at
    [/staging/zen.uv] for a transfer bound for [/data/zen.uv] on store 1,
    with the expected checksum and size. A pass of [core] completes the
    transfer, adds the one file row with that checksum and size and one
    instance row with the default deletion policy DISALLOWED, and the
    store moves the bytes to [/data/zen.uv] and empties the staging
    path. But the instance row records [/staging/zen.uv], the path
    [path_info] reported for the staged file: no instance row exists at
    the store path of the transfer, and the one that was added points at
    a path where nothing is left. *)
Theorem core_records_staging_path :
  let t := Scenario.clone 100 in
  let r := core Scenario.wall_clock default_task (Scenario.receiving 100) in
  fst r = Ok true /\
  status <$> incoming (snd r) !! 0%nat = Some COMPLETED /\
  files (snd r)
  = [new_file (upload_name t) (transfer_checksum t) (transfer_size t)
       (uploader t) (source t)] /\
  instances (snd r)
  = [mkInstance 1 (staging_path t) (upload_name t) 1 DISALLOWED true] /\
  staging_path t <> store_path t /\
  instances_at (snd r) 1 (store_path t) = [] /\
  (exists st, stores (snd r) !! 1 = Some st /\
     store_manager st !! store_path t = Some (transfer_checksum t, transfer_size t) /\
     store_manager st !! staging_path t = None) /\
  ~ completed_with_one_instance Scenario.wall_clock default_task
      (Scenario.receiving 100) 0%nat t.
Proof.
  cbn zeta.
  split; [vm_compute; reflexivity|]. split; [vm_compute; reflexivity|].
  split; [vm_compute; reflexivity|]. split; [vm_compute; reflexivity|].
  split; [discriminate|]. split; [vm_compute; reflexivity|].
  split.
  { eexists. split; [vm_compute; reflexivity|]. split; vm_compute; reflexivity. }
  intros (k & x & f & Hk & Hat & _).
  injection Hk as <-. vm_compute in Hat. discriminate.
Qed.



End RecieveCloneFacts.

(** ** The endpoint that deletes instances *)

Module InstancesApiFacts.

Import Logger InstancesApi.

(** The endpoint never assigns [status_code]. *)
Lemma delete_keeps_status_code
  (request : InstanceAdministrationDeleteRequest) (username : string)
  (response : Response) (s : State) :
  exists resp call s',
    delete_remote_instance request username response s = (Ok (resp, call), s') /\
    status_code resp = status_code response.
Proof.
  unfold delete_remote_instance, bind, log_info, modify.
  destruct (String.eqb (instance_type request) "local");
    [|destruct (String.eqb (instance_type request) "remote")].
  - unfold gets. destruct (negb _); cbn; eauto 6.
  - unfold gets. destruct (negb _); cbn; eauto 6.
  - cbn. eauto 6.
Qed.

(** C5: the code at the failing input, and on a row that exists. Asked
    to delete a local instance that is not in the catalog, the endpoint
    leaves [status_code] unset, so the reply goes out with the default
    200 and not with 400; what it assigns is an attribute named
    [response_conde], and the reply is built with a keyword [succes], not
    [success]. Asked to delete the row that exists, it deletes it and
    answers [success=True], again with the default 200 and not 201. *)
Theorem delete_instance_status_codes :
  (exists resp call s',
     delete_remote_instance Scenario.delete_absent "admin" fresh_response
       Scenario.one_instance = (Ok (resp, call), s') /\
     status_code resp = None /\
     http_status resp = 200 /\
     other_attributes resp = [("response_conde", HTTP_400_BAD_REQUEST)] /\
     keyword "success" call = None /\
     keyword "succes" call = Some (PyBool false) /\
     instances s' = instances Scenario.one_instance) /\
  (exists resp call s',
     delete_remote_instance Scenario.delete_present "admin" fresh_response
       Scenario.one_instance = (Ok (resp, call), s') /\
     http_status resp = 200 /\
     keyword "success" call = Some (PyBool true) /\
     instances s' = ∅).
Proof.
  split.
  - do 3 eexists. split; [vm_compute; reflexivity|]. repeat split; reflexivity.
  - do 3 eexists. split; [vm_compute; reflexivity|]. repeat split; reflexivity.
Qed.

End InstancesApiFacts.

(** ** More on the stores *)

Module ServerStoreMore.

Import ServerStore.

Lemma max_space_upper (space : Store -> Z) (q : list Store) (s : Store) :
  In s q -> space s <= max_space space q.
Proof.
  unfold max_space. induction q as [|x q IH]; intros Hin; [destruct Hin|].
  cbn [map fold_right]. destruct Hin as [->|Hin]; [lia|].
  specialize (IH Hin). lia.
Qed.


(** X2. A reply of [recommended_store] always describes a store of the
    table that is marked available (the last such row of the query), and
    the free space it reports is at least the size asked for and at least
    the free space of every available store. *)
Theorem recommended_store_reply
  (space : Store -> Z) (stores : list Store) (file_size : Z) (i : StoreInfo) :
  fst (recommended_store space stores file_size) = Ok i ->
  exists s,
    last (List.filter available stores) = Some s /\
    describes i s /\
    In s stores /\ available s = true /\
    0 <= file_size <= info_available i /\
    forall s', In s' stores -> available s' = true -> space s' <= info_available i.
Proof.
  unfold recommended_store.
  destruct (Z.ltb_spec file_size 0) as [Hneg|Hpos]; [discriminate|].
  set (q := List.filter available stores).
  destruct (ServerStoreFacts.scan_spec space q) as [Hm _].
  destruct (_ || _) eqn:Hguard; [discriminate|].
  apply orb_false_iff in Hguard. destruct Hguard as [Hfit _].
  apply Z.ltb_ge in Hfit. rewrite Hm in Hfit.
  unfold scan. rewrite ServerStoreFacts.scan_loop_variable.
  destruct (last q) as [s|] eqn:Hlast; [|discriminate].
  intros [= <-]. exists s. split; [reflexivity|].
  cbn [info_name info_ssh_host info_path_prefix info_available].
  split; [repeat split|].
  assert (Hin : In s q).
  { apply list_elem_of_In. apply last_Some in Hlast. destruct Hlast as [l' ->].
    apply elem_of_app. right. apply list_elem_of_here. }
  apply filter_In in Hin. destruct Hin as [Hin Hav].
  split; [exact Hin|]. split; [exact Hav|].
  fold (scan space q). rewrite Hm. split; [lia|].
  intros s' Hs' Hav'. apply max_space_upper. apply filter_In. split; assumption.
Qed.

Lemma recommended_store_reply_witness :
  exists i s,
    fst (recommended_store Scenario.free_space
           [Scenario.large_store; Scenario.small_store] 150) = Ok i /\
    describes i s /\ available s = true /\ 150 <= info_available i.
Proof.
  destruct (recommended_store_reply Scenario.free_space
              [Scenario.large_store; Scenario.small_store] 150
              (mkStoreInfo "pot-a" "pot-a.example" "/data" 200) ltac:(reflexivity))
    as (s & _ & Hd & _ & Hav & [_ Hfit] & _).
  exists (mkStoreInfo "pot-a" "pot-a.example" "/data" 200), s.
  split; [reflexivity|]. split; [exact Hd|]. split; [exact Hav | exact Hfit].
Defined.

(** X3. A call of [complete_upload] that raises has changed nothing,
    neither in the catalog nor on the stores. *)
Theorem complete_upload_failure_changes_nothing
  (a : UploadArgs) (src : option string) (now : Z) (w w' : World) (e : exn) :
  complete_upload a src now w = (Raise e, w') -> w' = w.
Proof.
  unfold complete_upload, bind.
  destruct (CompleteUploadFacts.get_by_name_cases (store_name a) w)
    as [(st & Hg & _)|(e0 & Hg)]; rewrite Hg; [|intros [= _ <-]; reflexivity].
  unfold get_info_for_path.
  destruct (disks w !! _) as [d|]; [|intros [= _ <-]; reflexivity].
  unfold required_arg, ret, raise.
  destruct (d_type d) as [ty|]; [|intros [= _ <-]; reflexivity].
  destruct (d_size d) as [sz|]; [|intros [= _ <-]; reflexivity].
  destruct (d_md5 d) as [m|]; [|intros [= _ <-]; reflexivity].
  destruct (negb (sz =? size a)); [intros [= _ <-]; reflexivity|].
  destruct (negb (String.eqb m (md5 a))); [intros [= _ <-]; reflexivity|].
  unfold gets. destruct (instances w !! _); cbn; discriminate.
Qed.

Lemma complete_upload_failure_changes_nothing_witness :
  exists e,
    complete_upload Scenario.upload_args None 1000 MoreScenario.short_upload_world
    = (Raise e, MoreScenario.short_upload_world).
Proof.
  destruct (complete_upload Scenario.upload_args None 1000
              MoreScenario.short_upload_world) as [[[]|e] w'] eqn:Hrun.
  - vm_compute in Hrun. discriminate.
  - exists e.
    rewrite (complete_upload_failure_changes_nothing _ _ _ _ _ _ Hrun). reflexivity.
Defined.

(** X4. A first upload: when the store name is that of one row, the
    staged file has the expected size and MD5 and no instance exists at
    the destination, the call succeeds; the staged bytes are then at the
    destination path and no longer at the staging path, and the catalog
    holds the file (under the base name of the destination, with the
    observed type, size and MD5), its instance on that store and the
    observation; the files under other names are as before. *)
Theorem complete_upload_first_time
  (a : UploadArgs) (src : option string) (now : Z) (w : World) (st : Store) (ty : string) :
  get_by_name (store_name a) w = (Ok st, w) ->
  disks w !! (name st, stage_path_of a)
    = Some (mkPathDict (Some ty) (Some (size a)) (Some (md5 a))) ->
  instances w !! instance_key st a = None ->
  stage_path_of a <> dest_store_path a ->
  exists w',
    complete_upload a src now w = (Ok tt, w') /\
    stores w' = stores w /\
    disks w' !! (name st, dest_store_path a)
      = Some (mkPathDict (Some ty) (Some (size a)) (Some (md5 a))) /\
    disks w' !! (name st, stage_path_of a) = None /\
    files w' !! basename (dest_store_path a)
      = Some (mkFile (basename (dest_store_path a)) ty (arg_obsid a) src (size a) (md5 a)
                (default now (create_time_unix a))) /\
    (forall n, n <> basename (dest_store_path a) -> files w' !! n = files w !! n) /\
    instances w' !! instance_key st a
      = Some (mkFileInstance (id st) (dirname (dest_store_path a))
                (basename (dest_store_path a))) /\
    observations w' !! arg_obsid a
      = Some (mkObservation (arg_obsid a) (arg_start_jd a) None None).
Proof.
  intros Hg Hd Hinst Hne. unfold complete_upload, bind. rewrite Hg.
  unfold get_info_for_path. rewrite Hd. unfold required_arg, ret.
  cbn [d_type d_size d_md5]. rewrite Z.eqb_refl, String.eqb_refl. cbn [negb].
  unfold gets. unfold instance_key in Hinst. rewrite Hinst.
  unfold _move, modify, set_disks, merge_rows.
  cbn [stores observations files instances disks].
  rewrite Hd. eexists. split; [reflexivity|].
  cbn [stores observations files instances disks obsid file_name
       inst_store inst_parent_dirs inst_name].
  split; [reflexivity|].
  split; [apply lookup_insert_eq|].
  split.
  { rewrite lookup_insert_ne by congruence. apply lookup_delete_eq. }
  split; [apply lookup_insert_eq|].
  split; [intros n Hn; apply lookup_insert_ne; congruence|].
  split; [unfold instance_key; apply lookup_insert_eq | apply lookup_insert_eq].
Qed.

Lemma complete_upload_first_time_witness :
  exists w',
    complete_upload Scenario.upload_args None 1000 Scenario.upload_world = (Ok tt, w') /\
    disks w' !! ("pot-a", "2456789/zen.2456789.5.uv")
      = Some (mkPathDict (Some "uv") (Some 100) (Some "0cc175b9c0f1b6a831c399e269772661")) /\
    disks w' !! ("pot-a", "upload_100_0cc175b9c0f1b6a831c399e269772661.staging") = None.
Proof.
  destruct (complete_upload_first_time Scenario.upload_args None 1000
              Scenario.upload_world Scenario.small_store "uv"
              ltac:(reflexivity) ltac:(reflexivity) ltac:(reflexivity)
              ltac:(vm_compute; discriminate))
    as (w' & Hrun & _ & Hdest & Hstage & _).
  exists w'. split; [exact Hrun|]. split; [exact Hdest | exact Hstage].
Defined.

End ServerStoreMore.

(** ** More on searches and standing orders *)

Module SearchMore.

Import ServerStore Search.

Lemma filter_none {A} (p : A -> bool) (l : list A) :
  (forall x, p x = false) -> List.filter p l = [].
Proof.
  intros Hp. induction l as [|x l IH]; cbn; [reflexivity|]. rewrite Hp. exact IH.
Qed.

Lemma filter_none_in {A} (p : A -> bool) (l : list A) :
  (forall x, In x l -> p x = false) -> List.filter p l = [].
Proof.
  induction l as [|x l IH]; intros Hp; [reflexivity|].
  cbn. rewrite (Hp x) by (left; reflexivity).
  apply IH. intros y Hy. apply Hp. right. exact Hy.
Qed.

Lemma flat_map_nothing {A B} (f : A -> list B) (l : list A) :
  (forall x, In x l -> f x = []) -> flat_map f l = [].
Proof.
  induction l as [|x l IH]; intros Hf; [reflexivity|].
  cbn [flat_map]. rewrite (Hf x) by (left; reflexivity).
  apply IH. intros y Hy. apply Hf. right. exact Hy.
Qed.

Lemma select_files_empty_search (now : Z) (table : list File) :
  select_files "empty-search" now table = Ok [].
Proof.
  unfold select_files.
  change (String.eqb "empty-search" "special-test-1") with false.
  change (String.eqb "empty-search" "special-test-2") with false.
  change (String.eqb "empty-search" "empty-search") with true.
  cbv iota. rewrite filter_none by (intros f; rewrite Z.eqb_refl; reflexivity).
  reflexivity.
Qed.

(** X5. What [select_files] gives is always part of the table, in the
    order of the table; the search "empty-search" gives nothing; the
    other searches only give files created less than fourteen days
    before the search. *)
Theorem select_files_window (search : string) (now : Z) (table A : list File) :
  select_files search now table = Ok A ->
  sublist A table /\
  (search = "empty-search" -> A = []) /\
  (search <> "empty-search" ->
   forall f, In f A -> now - 14 * 86400 < file_create_time f).
Proof.
  unfold select_files.
  destruct (String.eqb_spec search "special-test-1") as [->|H1].
  { intros [= <-]. split; [apply SearchFacts.filter_sublist|].
    split; [discriminate|]. intros _ f Hin. apply filter_In in Hin.
    destruct Hin as [_ Hp]. apply andb_true_iff in Hp. destruct Hp as [Hp _].
    apply Z.ltb_lt in Hp. exact Hp. }
  destruct (String.eqb_spec search "special-test-2") as [->|H2].
  { intros [= <-]. split; [apply SearchFacts.filter_sublist|].
    split; [discriminate|]. intros _ f Hin. apply filter_In in Hin.
    destruct Hin as [_ Hp]. apply andb_true_iff in Hp. destruct Hp as [Hp _].
    apply Z.ltb_lt in Hp. exact Hp. }
  destruct (String.eqb_spec search "empty-search") as [->|H3]; [|discriminate].
  intros [= <-].
  rewrite filter_none by (intros f; rewrite Z.eqb_refl; reflexivity).
  split; [apply sublist_nil_l|]. split; [reflexivity|]. intros Hne. contradiction.
Qed.

Lemma select_files_window_witness :
  exists A,
    select_files "special-test-1" Scenario.evaluation_time
      (file_table Scenario.three_files) = Ok A /\
    sublist A (file_table Scenario.three_files) /\
    forall f, In f A -> Scenario.evaluation_time - 14 * 86400 < file_create_time f.
Proof.
  exists (file_table Scenario.three_files).
  assert (Hsel : select_files "special-test-1" Scenario.evaluation_time
                   (file_table Scenario.three_files)
                 = Ok (file_table Scenario.three_files)) by (vm_compute; reflexivity).
  destruct (select_files_window _ _ _ _ Hsel) as (Hsub & _ & Hwin).
  split; [exact Hsel|]. split; [exact Hsub|].
  apply Hwin. discriminate.
Defined.

(** X6. A standing order whose search is not one of the three built-in
    ones cannot be evaluated: [maybe_launch_copies] raises
    [NotImplementedError] after its first debug line and asks for no
    copy. *)
Theorem maybe_launch_copies_unsupported_search
  (no_instance_available : string -> string -> bool)
  (o : StandingOrder) (now : Z) (env : Env) (e : Effects) :
  so_search o <> "special-test-1" ->
  so_search o <> "special-test-2" ->
  so_search o <> "empty-search" ->
  maybe_launch_copies no_instance_available o now env e
  = (Raise (NotImplementedError "general searching not actually implemented"),
     {| launches := launches e;
        log := log e ++ [("DEBUG", "evaluating standing order " +:+ so_name o)] |}).
Proof.
  intros H1 H2 H3.
  unfold maybe_launch_copies, bind, log_line, modify, get_files_to_copy, select_files.
  apply String.eqb_neq in H1, H2, H3. rewrite H1, H2, H3. reflexivity.
Qed.

Lemma maybe_launch_copies_unsupported_search_witness :
  fst (maybe_launch_copies (fun _ _ => false) MoreScenario.free_form
         Scenario.evaluation_time Scenario.three_files (mkEffects [] []))
  = Raise (NotImplementedError "general searching not actually implemented") /\
  launches (snd (maybe_launch_copies (fun _ _ => false) MoreScenario.free_form
                   Scenario.evaluation_time Scenario.three_files (mkEffects [] []))) = [].
Proof.
  rewrite (maybe_launch_copies_unsupported_search (fun _ _ => false)
             MoreScenario.free_form Scenario.evaluation_time Scenario.three_files
             (mkEffects [] []))
    by (vm_compute; discriminate).
  split; reflexivity.
Defined.

(** X7. Only the uploader tasks of the order itself that recorded no
    exception count as in flight: adding or removing any other task (a
    task of another kind, of another order or of none, or one that
    failed) does not change the files the order wants copied. *)
Theorem get_files_to_copy_ignores_other_tasks
  (o : StandingOrder) (now : Z) (table : list File) (events : list FileEvent)
  (before others after : list Task) :
  (forall t, In t others ->
     ~ exists store_path, t = UploaderTask store_path (Some (so_name o)) None) ->
  get_files_to_copy o now (mkEnv table events (before ++ others ++ after))
  = get_files_to_copy o now (mkEnv table events (before ++ after)).
Proof.
  intros Hothers.
  assert (Hsame : already_launched o (mkEnv table events (before ++ others ++ after))
                  = already_launched o (mkEnv table events (before ++ after))).
  { unfold already_launched. cbn [tasks]. rewrite !flat_map_app.
    rewrite (flat_map_nothing _ others); [reflexivity|].
    intros t Ht. destruct t as [sp so ex|]; [|reflexivity].
    destruct (bool_decide (Some (so_name o) = so)) eqn:Hso; [|reflexivity].
    destruct ex as [x|]; [reflexivity|].
    exfalso. apply bool_decide_eq_true in Hso. subst so.
    apply (Hothers _ Ht). eauto. }
  unfold get_files_to_copy. cbn [file_table]. rewrite Hsame. reflexivity.
Qed.

Lemma get_files_to_copy_ignores_other_tasks_witness :
  get_files_to_copy Scenario.nightly Scenario.evaluation_time
    (mkEnv (file_table Scenario.three_files) (event_table Scenario.three_files)
       ([] ++ [OtherTask;
               UploaderTask "2457545/zen.2457545.22130.c.uv" (Some "nightly") (Some "timeout");
               UploaderTask "2457545/zen.2457545.22130.c.uv" (Some "weekly") None]
           ++ tasks Scenario.three_files))
  = get_files_to_copy Scenario.nightly Scenario.evaluation_time Scenario.three_files.
Proof.
  rewrite get_files_to_copy_ignores_other_tasks; [reflexivity|].
  intros t [<-|[<-|[<-|[]]]] [sp Hsp]; discriminate.
Defined.

End SearchMore.

(** ** The manager of the standing orders *)

Module StandingOrderManagerFacts.

Import ServerStore Search StandingOrderManager.

Section Manager.

Variable no_instance_available : string -> string -> bool.
Variable standing_orders : list StandingOrder.
Variable env : Env.

Local Abbreviation run :=
  (maybe_launch_copies no_instance_available standing_orders env).

(** The two ways [maybe_launch_copies] goes. *)
Lemma manager_run_cases (now utcnow : Z) (p : Process) :
  (now - last_check p < MIN_STANDING_ORDER_INTERVAL /\ run now utcnow p = (Ok false, p)) \/
  (MIN_STANDING_ORDER_INTERVAL <= now - last_check p /\
   exists r eff,
     run now utcnow p = (r, mkProcess now (launch_queued p) (timeouts p) eff) /\
     (r = Ok true \/ exists e, r = Raise e)).
Proof.
  unfold maybe_launch_copies, bind, gets.
  destruct (Z.ltb_spec (now - last_check p) MIN_STANDING_ORDER_INTERVAL) as [Hsoon|Hdue].
  - left. split; [exact Hsoon | reflexivity].
  - right. split; [exact Hdue|].
    unfold debug, set_last_check, on_effects, log_line, modify.
    cbn [last_check launch_queued timeouts effects].
    match goal with |- context [evaluate_each ?a ?b ?c ?d ?x] =>
      destruct (evaluate_each a b c d x) as [[[]|e] eff] end.
    + exists (Ok true), eff. split; [reflexivity | left; reflexivity].
    + exists (Raise e), eff. split; [reflexivity | right; eauto].
Qed.

End Manager.

(** X8. The manager evaluates the standing orders at most once per
    [MIN_STANDING_ORDER_INTERVAL]: a call that does not answer [False]
    (it ran the searches, or raised while running them) records its time
    as the last check and touches neither [launch_queued] nor the
    timeouts, and every call less than 300 seconds after that time
    answers [False] and changes nothing. *)
Theorem manager_rate_limit
  (no_instance_available : string -> string -> bool)
  (standing_orders : list StandingOrder) (env : Env)
  (now utcnow : Z) (p p' : Process) (r : outcome bool) :
  maybe_launch_copies no_instance_available standing_orders env now utcnow p = (r, p') ->
  r <> Ok false ->
  MIN_STANDING_ORDER_INTERVAL <= now - last_check p /\
  last_check p' = now /\
  launch_queued p' = launch_queued p /\
  timeouts p' = timeouts p /\
  forall standing_orders' env' now' utcnow',
    now' - now < MIN_STANDING_ORDER_INTERVAL ->
    maybe_launch_copies no_instance_available standing_orders' env' now' utcnow' p'
    = (Ok false, p').
Proof.
  intros Hrun Hr.
  destruct (manager_run_cases no_instance_available standing_orders env now utcnow p)
    as [[_ Hsoon]|(Hdue & r0 & eff & Hran & _)].
  - rewrite Hsoon in Hrun. injection Hrun as <- <-. contradiction.
  - rewrite Hran in Hrun. injection Hrun as <- <-.
    split; [exact Hdue|]. repeat (split; [reflexivity|]).
    intros so' env' now' utcnow' Hsoon.
    destruct (manager_run_cases no_instance_available so' env' now' utcnow'
                (mkProcess now (launch_queued p) (timeouts p) eff))
      as [[_ Hno]|[Hdue' _]]; [exact Hno|].
    cbn [last_check] in Hdue'. lia.
Qed.

Lemma manager_rate_limit_witness :
  let first := maybe_launch_copies (fun _ _ => false) [Scenario.nightly]
                 Scenario.three_files 1466000000 Scenario.evaluation_time
                 the_standing_order_manager in
  fst first = Ok true /\
  maybe_launch_copies (fun _ _ => false) [Scenario.nightly] Scenario.three_files
    1466000299 Scenario.evaluation_time (snd first)
  = (Ok false, snd first).
Proof.
  intros first.
  assert (Hok : fst first = Ok true) by (vm_compute; reflexivity).
  split; [exact Hok|].
  destruct (manager_rate_limit (fun _ _ => false) [Scenario.nightly]
              Scenario.three_files 1466000000 Scenario.evaluation_time
              the_standing_order_manager (snd first) (fst first)
              (surjective_pairing first)
              ltac:(rewrite Hok; discriminate))
    as (_ & _ & _ & _ & Hlater).
  apply Hlater. vm_compute. reflexivity.
Defined.

(** X9. A launch is queued exactly when the loop holds one timeout:
    [queue_launch_copy] keeps this and always leaves a launch queued (a
    second call schedules nothing more), and so does a timeout that
    fires and ends without an exception, which either ran the searches
    and cleared [launch_queued] or re-scheduled itself. *)
Theorem launch_queued_matches_timeouts
  (no_instance_available : string -> string -> bool)
  (standing_orders : list StandingOrder) (env : Env) (p : Process) :
  queued_once p ->
  (fst (queue_launch_copy p) = Ok tt /\
   queued_once (snd (queue_launch_copy p)) /\
   launch_queued (snd (queue_launch_copy p)) = true /\
   timeouts (snd (queue_launch_copy (snd (queue_launch_copy p))))
     = [DEFAULT_STANDING_ORDER_DELAY]) /\
  forall now utcnow,
    fst (fire_timeout no_instance_available standing_orders env now utcnow p) = Ok tt ->
    queued_once (snd (fire_timeout no_instance_available standing_orders env now utcnow p)).
Proof.
  unfold queued_once. intros Hinv. split.
  - unfold queue_launch_copy, bind, debug, on_effects, log_line, modify, gets,
      set_launch_queued, call_later, ret.
    cbn [last_check launch_queued timeouts effects].
    destruct (launch_queued p) eqn:Hq; cbn [fst snd last_check launch_queued timeouts effects].
    + repeat split; try reflexivity; exact Hinv.
    + rewrite Hinv. repeat split; reflexivity.
  - intros now utcnow.
    destruct (fire_timeout no_instance_available standing_orders env now utcnow p)
      as [r p'] eqn:Hfire.
    cbn [fst snd]. intros ->. revert Hfire.
    unfold fire_timeout, bind at 1, gets.
    destruct (timeouts p) as [|d rest] eqn:Ht.
    + unfold ret. intros [= <-]. rewrite Ht. exact Hinv.
    + destruct (launch_queued p) eqn:Hq; [|discriminate].
      injection Hinv as -> ->.
      unfold bind at 1, modify at 1.
      unfold _launch_copy_timeout, bind at 1, debug at 1, on_effects at 1, log_line, modify.
      cbn [last_check launch_queued timeouts effects].
      unfold bind at 1.
      match goal with |- context [maybe_launch_copies _ _ _ now utcnow ?p0] =>
        destruct (manager_run_cases no_instance_available standing_orders env now utcnow p0)
          as [[_ Hrun]|(_ & r & eff & Hrun & [->|[e ->]])]; rewrite Hrun end.
      * unfold bind, debug, on_effects, log_line, modify, call_later.
        cbn. intros [= <-]. cbn. rewrite Hq. reflexivity.
      * unfold set_launch_queued, modify. cbn. intros [= <-]. reflexivity.
      * discriminate.
Qed.

Lemma launch_queued_matches_timeouts_witness :
  queued_once the_standing_order_manager /\
  queued_once (snd (queue_launch_copy the_standing_order_manager)) /\
  timeouts (snd (queue_launch_copy (snd (queue_launch_copy the_standing_order_manager))))
    = [90].
Proof.
  assert (Hinv : queued_once the_standing_order_manager) by reflexivity.
  split; [exact Hinv|].
  destruct (launch_queued_matches_timeouts (fun _ _ => false) [] Scenario.three_files
              the_standing_order_manager Hinv) as [(_ & Hq & _ & Htwice) _].
  split; [exact Hq | exact Htwice].
Defined.

(** X10. When the evaluation raises inside a timeout (a standing order
    with a search that is not built in), the timeout is gone and
    [launch_queued] is still set: from then on [queue_launch_copy]
    schedules nothing. *)
Theorem failed_timeout_blocks_queue
  (no_instance_available : string -> string -> bool)
  (standing_orders : list StandingOrder) (env : Env)
  (now utcnow : Z) (p : Process) (e : exn) :
  queued_once p ->
  launch_queued p = true ->
  fst (fire_timeout no_instance_available standing_orders env now utcnow p) = Raise e ->
  let p' := snd (fire_timeout no_instance_available standing_orders env now utcnow p) in
  launch_queued p' = true /\
  timeouts p' = [] /\
  timeouts (snd (queue_launch_copy p')) = [].
Proof.
  unfold queued_once. intros Hinv Hq. rewrite Hq in Hinv.
  destruct (fire_timeout no_instance_available standing_orders env now utcnow p)
    as [r p'] eqn:Hfire.
  cbn [fst snd]. intros ->. revert Hfire.
  unfold fire_timeout, bind at 1, gets. rewrite Hinv.
  unfold bind at 1, modify at 1.
  unfold _launch_copy_timeout, bind at 1, debug at 1, on_effects at 1, log_line, modify.
  cbn [last_check launch_queued timeouts effects].
  unfold bind at 1.
  match goal with |- context [maybe_launch_copies _ _ _ now utcnow ?p0] =>
    destruct (manager_run_cases no_instance_available standing_orders env now utcnow p0)
      as [[_ Hrun]|(_ & r & eff & Hrun & [->|[e' ->]])]; rewrite Hrun end.
  - unfold bind, debug, on_effects, log_line, modify, call_later. cbn. discriminate.
  - unfold set_launch_queued, modify. cbn. discriminate.
  - intros [= _ <-]. cbn [launch_queued timeouts]. rewrite Hq.
    split; [reflexivity|]. split; [reflexivity|].
    unfold queue_launch_copy, bind, debug, on_effects, log_line, modify, gets, ret.
    reflexivity.
Qed.

Lemma failed_timeout_blocks_queue_witness :
  let p' := snd (fire_timeout (fun _ _ => false) [MoreScenario.free_form]
                   Scenario.three_files 1466000000 Scenario.evaluation_time
                   MoreScenario.queued_manager) in
  launch_queued p' = true /\ timeouts (snd (queue_launch_copy p')) = [].
Proof.
  destruct (failed_timeout_blocks_queue (fun _ _ => false) [MoreScenario.free_form]
              Scenario.three_files 1466000000 Scenario.evaluation_time
              MoreScenario.queued_manager
              (NotImplementedError "general searching not actually implemented")
              ltac:(reflexivity) ltac:(reflexivity) ltac:(vm_compute; reflexivity))
    as (Hq & _ & Hnone).
  split; [exact Hq | exact Hnone].
Defined.

End StandingOrderManagerFacts.

(** ** The pages that edit the standing orders *)

Module StandingOrderPagesFacts.

Import ServerStore Search StandingOrderPages.

Lemma has_name_taken (n : string) (l : list StandingOrder) :
  existsb (has_name n) l = true <-> n ∈ so_name <$> l.
Proof.
  rewrite existsb_exists, list_elem_of_fmap. unfold has_name. split.
  - intros (o & Hin & Hn). apply String.eqb_eq in Hn. exists o.
    split; [symmetry; exact Hn | apply list_elem_of_In; exact Hin].
  - intros (o & -> & Hin). exists o.
    split; [apply list_elem_of_In; exact Hin | apply String.eqb_refl].
Qed.

Lemma has_name_free (n : string) (l : list StandingOrder) :
  existsb (has_name n) l = false <-> n ∉ so_name <$> l.
Proof.
  rewrite <- has_name_taken. destruct (existsb _ _); split; congruence.
Qed.

Lemma first_named_none (n : string) (l : list StandingOrder) :
  first_named n l = None <-> n ∉ so_name <$> l.
Proof.
  unfold first_named. rewrite list_find_None, Forall_forall, list_elem_of_fmap. split.
  - intros Hall (o & -> & Hin). apply (Hall o Hin). unfold has_name. apply String.eqb_refl.
  - intros Hno o Hin Hn. apply Hno. exists o. split; [|exact Hin].
    unfold has_name in Hn. apply String.eqb_eq in Hn. symmetry. exact Hn.
Qed.

Lemma first_named_some (n : string) (l : list StandingOrder) (i : nat) (o : StandingOrder) :
  first_named n l = Some (i, o) ->
  l !! i = Some o /\ so_name o = n /\ n ∉ so_name <$> take i l.
Proof.
  unfold first_named. rewrite list_find_Some. intros (Hl & Hn & Hmin).
  split; [exact Hl|]. unfold has_name in Hn. apply String.eqb_eq in Hn.
  split; [exact Hn|].
  rewrite list_elem_of_fmap. intros (o' & -> & Hin).
  apply list_elem_of_lookup in Hin. destruct Hin as [j Hj].
  apply lookup_take_Some in Hj. destruct Hj as [Hj Hlt].
  apply (Hmin j o' Hj Hlt). unfold has_name. apply String.eqb_refl.
Qed.

Lemma first_named_last (n : string) (l : list StandingOrder) (o : StandingOrder) :
  n ∉ so_name <$> l -> so_name o = n ->
  first_named n (l ++ [o]) = Some (length l, o).
Proof.
  intros Hfree Hn. unfold first_named. apply list_find_Some.
  split; [apply list_lookup_middle; reflexivity|].
  split; [unfold has_name; rewrite Hn; apply String.eqb_refl|].
  intros j y Hj Hlt Hy. apply Hfree.
  rewrite lookup_app_l in Hj by exact Hlt.
  apply list_elem_of_fmap. exists y. split.
  - unfold has_name in Hy. apply String.eqb_eq in Hy. symmetry. exact Hy.
  - apply list_elem_of_lookup. eauto.
Qed.

Lemma length_zero_empty (x : string) : Nat.eqb (String.length x) 0 = true <-> x = "".
Proof.
  destruct x; cbn; split; try reflexivity; discriminate.
Qed.

Lemma filter_keeps_all {A} (p : A -> bool) (l : list A) :
  (forall x, x ∈ l -> p x = true) -> List.filter p l = l.
Proof.
  induction l as [|x l IH]; intros Hp; [reflexivity|].
  cbn. rewrite (Hp x) by apply list_elem_of_here.
  f_equal. apply IH. intros y Hy. apply Hp. apply list_elem_of_further. exact Hy.
Qed.

Lemma not_named (n : string) (l : list StandingOrder) :
  n ∉ so_name <$> l -> forall o, o ∈ l -> negb (has_name n o) = true.
Proof.
  intros Hfree o Hin. apply negb_true_iff. unfold has_name.
  apply String.eqb_neq. intros Hn. apply Hfree.
  apply list_elem_of_fmap. exists o. split; [symmetry; exact Hn | exact Hin].
Qed.

(** With unique names, the rows around the first row of a name do not
    have that name. *)
Lemma first_named_split (n : string) (l : list StandingOrder) (i : nat) (o : StandingOrder) :
  NoDup (so_name <$> l) ->
  first_named n l = Some (i, o) ->
  l = (take i l ++ o :: drop (S i) l)%list /\
  (n ∉ so_name <$> take i l) /\ (n ∉ so_name <$> drop (S i) l).
Proof.
  intros Hnd Hfirst. apply first_named_some in Hfirst.
  destruct Hfirst as (Hl & Hn & Hbefore).
  pose proof (take_drop_middle l i o Hl) as Hsplit.
  split; [symmetry; exact Hsplit|]. split; [exact Hbefore|].
  rewrite <- Hsplit in Hnd. rewrite fmap_app, fmap_cons in Hnd.
  apply NoDup_app in Hnd. destruct Hnd as (_ & _ & Hnd).
  apply NoDup_cons in Hnd. destruct Hnd as [Hnot _]. rewrite Hn in Hnot. exact Hnot.
Qed.

Lemma NoDup_insert_free {A} (l : list A) (i : nat) (x : A) :
  NoDup l -> x ∉ delete i l -> NoDup (<[i:=x]> l).
Proof.
  revert i. induction l as [|y l IH]; intros i Hnd Hfree; [exact Hnd|].
  apply NoDup_cons in Hnd. destruct Hnd as [Hy Hnd].
  destruct i as [|i]; simpl in Hfree |- *.
  - apply NoDup_cons. split; assumption.
  - apply not_elem_of_cons in Hfree. destruct Hfree as [Hxy Hfree].
    apply NoDup_cons. split; [|apply IH; assumption].
    intros Hin. apply list_elem_of_lookup in Hin. destruct Hin as [j Hj].
    destruct (decide (j = i)) as [->|Hne].
    + apply list_lookup_insert_Some in Hj. destruct Hj as [(_ & Heq & _)|[Hc _]];
        [congruence|congruence].
    + rewrite list_lookup_insert_ne in Hj by congruence.
      apply Hy. apply list_elem_of_lookup. eauto.
Qed.

Section Pages.

Variable integrity_error : string -> string.

(** [create_standing_order] adds nothing and flashes one message
    when the name is empty or already taken; otherwise it adds, at the
    end of the table, one order of that name with the search
    "empty-search" and the destination "undefined-connection", flashes
    nothing and redirects to the page of the new order. *)
Lemma create_standing_order_cases (ignored_name name : string) (s : Site) :
  let r := create_standing_order integrity_error ignored_name name s in
  (name = "" \/ name ∈ so_name <$> orders s ->
   fst r = RedirectTo url_standing_orders /\
   orders (snd r) = orders s /\
   length (flashes (snd r)) = S (length (flashes s))) /\
  (name <> "" -> name ∉ so_name <$> orders s ->
   fst r = RedirectTo (url_standing_orders +:+ "/" +:+ name) /\
   orders (snd r)
     = (orders s ++ [mkStandingOrder name "empty-search" "undefined-connection"])%list /\
   flashes (snd r) = flashes s).
Proof.
  cbn zeta. unfold create_standing_order.
  destruct (Nat.eqb (String.length name) 0) eqn:Hlen.
  - apply length_zero_empty in Hlen. subst name. split.
    + intros _. cbn. rewrite length_app. cbn. repeat split; lia.
    + intros Hne. contradiction.
  - assert (Hne : name <> "").
    { intros ->. cbn in Hlen. discriminate. }
    destruct (existsb (has_name name) (orders s)) eqn:Htaken.
    + apply has_name_taken in Htaken. split.
      * intros _. cbn. rewrite length_app. cbn. repeat split; lia.
      * intros _ Hfree. contradiction.
    + apply has_name_free in Htaken. split.
      * intros [Hempty|Hin]; contradiction.
      * intros _ _. cbn. repeat split.
Qed.

End Pages.

(** X11. A standing order that was just created copies nothing: its row
    is the last of the table, and whatever the files, events and tasks
    are, evaluating it ends without an exception and asks for no
    copy. *)
Theorem new_standing_order_copies_nothing
  (integrity_error : string -> string) (ignored_name name : string) (s : Site) :
  name <> "" -> name ∉ so_name <$> orders s ->
  exists o,
    last (orders (snd (create_standing_order integrity_error ignored_name name s)))
      = Some o /\
    so_name o = name /\
    forall no_instance_available now env e,
      fst (Search.maybe_launch_copies no_instance_available o now env e) = Ok tt /\
      launches (snd (Search.maybe_launch_copies no_instance_available o now env e))
        = launches e.
Proof.
  intros Hne Hfree.
  destruct (create_standing_order_cases integrity_error ignored_name name s)
    as [_ Hnew]. destruct (Hnew Hne Hfree) as (_ & Horders & _).
  rewrite Horders. eexists. split; [apply last_snoc|]. split; [reflexivity|].
  intros no_instance_available now env e.
  unfold Search.maybe_launch_copies, bind, log_line, modify, get_files_to_copy.
  cbn [so_search]. rewrite SearchMore.select_files_empty_search.
  cbn. split; reflexivity.
Qed.

Lemma new_standing_order_copies_nothing_witness :
  exists o,
    last (orders (snd (create_standing_order MoreScenario.duplicate_name "ignored"
                         "monthly" MoreScenario.two_orders))) = Some o /\
    so_name o = "monthly" /\
    launches (snd (Search.maybe_launch_copies (fun _ _ => false) o
                     Scenario.evaluation_time Scenario.three_files (mkEffects [] [])))
      = [].
Proof.
  destruct (new_standing_order_copies_nothing MoreScenario.duplicate_name "ignored"
              "monthly" MoreScenario.two_orders ltac:(discriminate)
              ltac:(vm_compute; intros H; repeat (inversion H as [|? ? ? H']; subst; clear H; rename H' into H)))
    as (o & Hlast & Hname & Hnone).
  exists o. split; [exact Hlast|]. split; [exact Hname|].
  apply Hnone.
Defined.



(** X12. With unique names, [delete_standing_order] removes the order of
    that name and no other: the table afterwards is the table before
    without the rows of that name, in the same order; nothing is removed
    when no order has the name. *)
Theorem delete_standing_order_removes (name : string) (s : Site) :
  names_unique s ->
  let s' := snd (delete_standing_order name s) in
  orders s' = List.filter (fun o => negb (has_name name o)) (orders s) /\
  (name ∉ so_name <$> orders s') /\
  (name ∉ so_name <$> orders s -> orders s' = orders s).
Proof.
  unfold names_unique. intros Hnd. cbn zeta. unfold delete_standing_order.
  destruct (first_named name (orders s)) as [[i o]|] eqn:Hfirst.
  - cbn [snd orders flash].
    destruct (first_named_split name (orders s) i o Hnd Hfirst)
      as (Hsplit & Hbefore & Hafter).
    assert (Hdel : delete i (orders s)
                   = List.filter (fun o => negb (has_name name o)) (orders s)).
    { rewrite delete_take_drop. rewrite Hsplit at 3.
      rewrite List.filter_app. cbn [List.filter].
      apply first_named_some in Hfirst. destruct Hfirst as (_ & Hn & _).
      unfold has_name at 2. rewrite Hn, String.eqb_refl. cbn [negb].
      rewrite !filter_keeps_all by (apply not_named; assumption). reflexivity. }
    split; [exact Hdel|]. split.
    + rewrite delete_take_drop, fmap_app. rewrite elem_of_app. tauto.
    + intros Hfree. apply first_named_none in Hfree. congruence.
  - cbn [snd orders flash]. apply first_named_none in Hfirst.
    split; [|split; [exact Hfirst | reflexivity]].
    symmetry. apply filter_keeps_all. apply not_named. exact Hfirst.
Qed.

Lemma delete_standing_order_removes_witness :
  orders (snd (delete_standing_order "nightly" MoreScenario.two_orders))
  = [MoreScenario.free_form].
Proof.
  assert (Hu : names_unique MoreScenario.two_orders).
  { unfold names_unique. cbn. repeat constructor.
    - intros H. apply list_elem_of_singleton in H. discriminate.
    - apply not_elem_of_nil. }
  destruct (delete_standing_order_removes "nightly" MoreScenario.two_orders Hu)
    as [Hrows _].
  rewrite Hrows. reflexivity.
Defined.

(** X13. Creating a standing order under a free, non-empty name and then
    deleting it gives back the table as it was. *)
Theorem create_then_delete
  (integrity_error : string -> string) (ignored_name name : string) (s : Site) :
  name <> "" -> name ∉ so_name <$> orders s ->
  orders (snd (delete_standing_order name
                 (snd (create_standing_order integrity_error ignored_name name s))))
  = orders s.
Proof.
  intros Hne Hfree.
  destruct (create_standing_order_cases integrity_error ignored_name name s)
    as [_ Hnew]. destruct (Hnew Hne Hfree) as (_ & Horders & _).
  destruct (create_standing_order integrity_error ignored_name name s) as [r s1].
  cbn [snd] in Horders |- *.
  unfold delete_standing_order. rewrite Horders.
  rewrite (first_named_last name (orders s) _ Hfree) by reflexivity.
  cbn [snd orders flash].
  rewrite delete_take_drop, take_app_length.
  rewrite drop_app_ge by lia.
  replace (S (length (orders s)) - length (orders s))%nat with 1%nat by lia.
  cbn. apply app_nil_r.
Qed.

Lemma create_then_delete_witness :
  orders (snd (delete_standing_order "monthly"
                 (snd (create_standing_order MoreScenario.duplicate_name "ignored"
                         "monthly" MoreScenario.two_orders))))
  = orders MoreScenario.two_orders.
Proof.
  apply create_then_delete; [discriminate|].
  cbn. intros H.
  repeat (apply elem_of_cons in H; destruct H as [H|H]; [discriminate|]).
  apply elem_of_nil in H. exact H.
Defined.

(** X14. [update_standing_order] changes nothing when no order has the
    name, and nothing when the new name belongs to another order;
    otherwise it rewrites that one row in place with the new name,
    search and destination, and the table keeps its length. *)
Theorem update_standing_order_cases
  (integrity_error : string -> string)
  (name new_name new_conn new_search : string) (s : Site) :
  let s' := snd (update_standing_order integrity_error name new_name new_conn
                   new_search s) in
  length (orders s') = length (orders s) /\
  (name ∉ so_name <$> orders s -> orders s' = orders s) /\
  forall i old,
    first_named name (orders s) = Some (i, old) ->
    (new_name ∈ so_name <$> delete i (orders s) -> orders s' = orders s) /\
    (new_name ∉ so_name <$> delete i (orders s) ->
     orders s' = <[i := mkStandingOrder new_name new_search new_conn]> (orders s) /\
     orders s' !! i = Some (mkStandingOrder new_name new_search new_conn)).
Proof.
  cbn zeta. unfold update_standing_order.
  destruct (first_named name (orders s)) as [[i o]|] eqn:Hfirst.
  - destruct (existsb (has_name new_name) (delete i (orders s))) eqn:Htaken.
    + cbn [snd orders flash]. apply has_name_taken in Htaken.
      split; [reflexivity|]. split; [reflexivity|].
      intros i' old [= <- <-]. split; [reflexivity|]. intros Hfree. contradiction.
    + cbn [snd orders flash]. apply has_name_free in Htaken.
      split; [apply length_insert|]. split.
      * intros Hfree. apply first_named_none in Hfree. congruence.
      * intros i' old [= <- <-]. split; [intros Hin; contradiction|].
        intros _. split; [reflexivity|].
        apply list_lookup_insert_eq. apply first_named_some in Hfirst.
        destruct Hfirst as [Hl _]. eapply lookup_lt_Some. exact Hl.
  - cbn [snd orders flash]. split; [reflexivity|]. split; [reflexivity|].
    intros i old Hc. discriminate.
Qed.

(** X15. The names of the standing orders stay unique through the three
    pages that edit the table. *)
Theorem standing_order_names_stay_unique
  (integrity_error : string -> string)
  (ignored_name name new_name new_conn new_search : string) (s : Site) :
  names_unique s ->
  names_unique (snd (create_standing_order integrity_error ignored_name name s)) /\
  names_unique (snd (update_standing_order integrity_error name new_name new_conn
                       new_search s)) /\
  names_unique (snd (delete_standing_order name s)).
Proof.
  unfold names_unique. intros Hnd. split; [|split].
  - unfold create_standing_order.
    destruct (Nat.eqb (String.length name) 0); [exact Hnd|].
    destruct (existsb (has_name name) (orders s)) eqn:Htaken; [exact Hnd|].
    apply has_name_free in Htaken. cbn [snd orders].
    rewrite fmap_app. apply NoDup_app. split; [exact Hnd|]. split.
    + intros x Hx Hin. cbn in Hin. apply list_elem_of_singleton in Hin. subst x.
      contradiction.
    + cbn. apply NoDup_singleton.
  - unfold update_standing_order.
    destruct (first_named name (orders s)) as [[i o]|]; [|exact Hnd].
    destruct (existsb (has_name new_name) (delete i (orders s))) eqn:Htaken;
      [exact Hnd|].
    apply has_name_free in Htaken. cbn [snd orders flash].
    rewrite list_fmap_insert. apply NoDup_insert_free; [exact Hnd|].
    rewrite <- list_fmap_delete. exact Htaken.
  - unfold delete_standing_order.
    destruct (first_named name (orders s)) as [[i o]|]; [|exact Hnd].
    cbn [snd orders flash]. rewrite list_fmap_delete.
    eapply sublist_NoDup; [exact Hnd | apply sublist_delete].
Qed.

Lemma standing_order_names_stay_unique_witness :
  names_unique (snd (update_standing_order MoreScenario.duplicate_name "nightly"
                       "weekly" "karoo" "empty-search" MoreScenario.two_orders)) /\
  orders (snd (update_standing_order MoreScenario.duplicate_name "nightly"
                 "weekly" "karoo" "empty-search" MoreScenario.two_orders))
  = orders MoreScenario.two_orders.
Proof.
  assert (Hu : names_unique MoreScenario.two_orders).
  { unfold names_unique. cbn. repeat constructor.
    - intros H. apply list_elem_of_singleton in H. discriminate.
    - apply not_elem_of_nil. }
  destruct (standing_order_names_stay_unique MoreScenario.duplicate_name "ignored" "nightly" "weekly" "karoo"
              "empty-search" MoreScenario.two_orders Hu) as (_ & Hupd & _).
  split; [exact Hupd | reflexivity].
Defined.

End StandingOrderPagesFacts.

(** ** More on the send queue *)

Module QueuesMore.

Import Logger Queues QueueWork.

Section WithManager.

Context {Mgr : Type} `{AsyncTransferManager Mgr}.
Variable clock : nat -> Z.
Variable server_settings : Settings.

Lemma first_row_none (l : list (nat * SendQueue Mgr)) : first_row l = None -> l = [].
Proof.
  destruct l as [|x l]; [reflexivity|]. cbn.
  destruct (first_row l) as [y|]; [destruct (before _ _)|]; discriminate.
Qed.

Lemma rows_where_all (p : SendQueue Mgr -> bool) (l : list (SendQueue Mgr))
  (i : nat) (q : SendQueue Mgr) :
  l !! i = Some q -> p q = true -> In (i, q) (rows_where p l).
Proof.
  intros Hl Hp. unfold rows_where. apply filter_In. split; [|exact Hp].
  apply list_elem_of_In, elem_of_lookup_imap. eauto.
Qed.

Lemma rows_where_empty (p : SendQueue Mgr -> bool) (l : list (SendQueue Mgr)) :
  rows_where p l = [] <-> forall q, In q l -> p q = false.
Proof.
  split.
  - intros Hnone q Hin. apply list_elem_of_In, list_elem_of_lookup in Hin.
    destruct Hin as [i Hi]. destruct (p q) eqn:Hp; [|reflexivity].
    pose proof (rows_where_all p l i q Hi Hp) as Hrow. rewrite Hnone in Hrow.
    destruct Hrow.
  - intros Hall. destruct (rows_where p l) as [|[i q] r] eqn:Hrows; [reflexivity|].
    assert (Hin : In (i, q) (rows_where p l)) by (rewrite Hrows; left; reflexivity).
    apply QueuesFacts.rows_where_lookup in Hin. destruct Hin as [Hl Hp].
    rewrite (Hall q) in Hp; [discriminate|].
    apply list_elem_of_In, list_elem_of_lookup. eauto.
Qed.

Lemma before_iff (a b : SendQueue Mgr) :
  before a b = true <->
  priority b < priority a \/ (priority a = priority b /\ created_time a < created_time b).
Proof.
  unfold before. rewrite orb_true_iff, andb_true_iff, !Z.ltb_lt, Z.eqb_eq. reflexivity.
Qed.

(** The first row of the order is not after any other row. *)
Lemma first_row_best (l : list (nat * SendQueue Mgr)) (x : nat * SendQueue Mgr) :
  first_row l = Some x ->
  forall y, In y l -> before (snd y) (snd x) = false.
Proof.
  revert x. induction l as [|z l IH]; intros x Hfirst y Hin; [destruct Hin|].
  cbn in Hfirst. destruct (first_row l) as [w|] eqn:Hw.
  - pose proof (IH w eq_refl) as IHw.
    destruct (before (snd w) (snd z)) eqn:Hwz; injection Hfirst as <-.
    + destruct Hin as [<-|Hin]; [|apply IHw; exact Hin].
      apply not_true_iff_false. rewrite before_iff. rewrite before_iff in Hwz. lia.
    + apply not_true_iff_false. rewrite before_iff.
      apply not_true_iff_false in Hwz. rewrite before_iff in Hwz.
      destruct Hin as [<-|Hin]; [lia|].
      specialize (IHw y Hin). apply not_true_iff_false in IHw.
      rewrite before_iff in IHw. lia.
  - injection Hfirst as <-. apply first_row_none in Hw. subst l.
    destruct Hin as [<-|[]]. apply not_true_iff_false. rewrite before_iff. lia.
Qed.

(** What [consume_queue_item] does with the row it takes when
    [batch_transfer] says yes. *)
Lemma consume_success (s : State Mgr) (i : nat) (q : SendQueue Mgr) (m : Mgr) :
  first_row (rows_where pending (send_queue s)) = Some (i, q) ->
  batch_transfer (async_transfer_manager q) (transfer_list_of (outgoing s) q) = (true, m) ->
  consume_queue_item clock server_settings s
  = (Ok true,
     mkState (<[i := set_consumed q (clock (reads s)) m]> (send_queue s)) (outgoing s)
       (librarians s) (journal s) (S (reads s))).
Proof.
  intros Hrow Hbt. unfold consume_queue_item, bind, gets. rewrite Hrow, Hbt.
  reflexivity.
Qed.

(** The shape of every call of [consume_queue_item]. *)
Lemma consume_shape (s : State Mgr) :
  (rows_where pending (send_queue s) = [] /\
   consume_queue_item clock server_settings s = (Ok false, s)) \/
  (exists i q q' outs n,
     first_row (rows_where pending (send_queue s)) = Some (i, q) /\
     send_queue s !! i = Some q /\ pending q = true /\
     consume_queue_item clock server_settings s
     = (Ok true, mkState (<[i := q']> (send_queue s)) outs (librarians s) (journal s) n) /\
     ((exists t m, q' = set_consumed q t m) \/
      (q' = add_retry q /\ retries q + 1 <= max_async_send_retries server_settings) \/
      q' = set_failed (add_retry q))).
Proof.
  destruct (first_row (rows_where pending (send_queue s))) as [[i q]|] eqn:Hrow.
  - right.
    pose proof (QueuesFacts.first_row_In _ _ Hrow) as Hin.
    apply QueuesFacts.rows_where_lookup in Hin. destruct Hin as [Hl Hp].
    destruct (batch_transfer (async_transfer_manager q)
                (transfer_list_of (outgoing s) q)) as [[|] m] eqn:Hbt.
    + exists i, q, (set_consumed q (clock (reads s)) m), (outgoing s), (S (reads s)).
      split; [reflexivity|]. split; [exact Hl|]. split; [exact Hp|].
      split; [apply consume_success; assumption|]. left. eauto.
    + destruct (QueuesFacts.consume_failure clock server_settings s i q Hrow)
        as (_ & _ & _ & Hrun); [rewrite Hbt; reflexivity|].
      destruct (Z.ltb_spec (max_async_send_retries server_settings) (retries q + 1)).
      * exists i, q, (set_failed (add_retry q)),
          (alter_all (set_status FAILED) (transfers q) (outgoing s)), (reads s).
        split; [reflexivity|]. split; [exact Hl|]. split; [exact Hp|].
        split; [exact Hrun|]. right. right. reflexivity.
      * exists i, q, (add_retry q), (outgoing s), (reads s).
        split; [reflexivity|]. split; [exact Hl|]. split; [exact Hp|].
        split; [exact Hrun|]. right. left. split; [reflexivity | lia].
  - left. apply first_row_none in Hrow. split; [exact Hrow|].
    unfold consume_queue_item, bind, gets. rewrite Hrow. reflexivity.
Qed.

End WithManager.

(** X16. [consume_queue_item] answers [False] exactly when no row of the
    queue is both unconsumed and uncompleted, and then it has changed
    nothing; otherwise it answers [True]. *)
Theorem consume_queue_item_nothing_to_do
  {Mgr : Type} `{AsyncTransferManager Mgr}
  (clock : nat -> Z) (server_settings : Settings) (s : State Mgr) :
  ((forall q, In q (send_queue s) -> pending q = false) ->
   consume_queue_item clock server_settings s = (Ok false, s)) /\
  ((exists q, In q (send_queue s) /\ pending q = true) ->
   fst (consume_queue_item clock server_settings s) = Ok true).
Proof.
  destruct (consume_shape clock server_settings s)
    as [[Hnone Hrun]|(i & q & q' & outs & n & Hrow & Hl & Hp & Hrun & _)].
  - split; [intros _; exact Hrun|].
    intros (q & Hin & Hp).
    pose proof (proj1 (rows_where_empty pending (send_queue s)) Hnone) as Hall.
    rewrite (Hall q Hin) in Hp. discriminate.
  - split; [|intros _; rewrite Hrun; reflexivity].
    intros Hall. rewrite (Hall q) in Hp; [discriminate|].
    apply list_elem_of_In, list_elem_of_lookup. eauto.
Qed.

(** X17. When [batch_transfer] succeeds for the row [consume_queue_item]
    takes, the row becomes consumed at the time read from the clock and
    keeps the state the manager left after the call; its retries, its
    children and every transfer are as before. *)
Theorem consume_queue_item_success
  {Mgr : Type} `{AsyncTransferManager Mgr}
  (clock : nat -> Z) (server_settings : Settings)
  (s : State Mgr) (i : nat) (q : SendQueue Mgr) (m : Mgr) :
  first_row (rows_where pending (send_queue s)) = Some (i, q) ->
  batch_transfer (async_transfer_manager q) (transfer_list_of (outgoing s) q) = (true, m) ->
  let r := consume_queue_item clock server_settings s in
  fst r = Ok true /\
  outgoing (snd r) = outgoing s /\
  exists q',
    send_queue (snd r) !! i = Some q' /\
    consumed q' = true /\ consumed_time q' = Some (clock (reads s)) /\
    async_transfer_manager q' = m /\
    retries q' = retries q /\ completed q' = false /\ failed q' = failed q /\
    transfers q' = transfers q.
Proof.
  intros Hrow Hbt. cbn zeta.
  rewrite (consume_success clock server_settings s i q m Hrow Hbt). cbn [fst snd].
  pose proof (QueuesFacts.first_row_In _ _ Hrow) as Hin.
  apply QueuesFacts.rows_where_lookup in Hin. destruct Hin as [Hl Hp].
  unfold pending in Hp. apply andb_true_iff in Hp. destruct Hp as [Hc _].
  apply negb_true_iff in Hc.
  split; [reflexivity|]. split; [reflexivity|].
  exists (set_consumed q (clock (reads s)) m). cbn [send_queue].
  split; [apply list_lookup_insert_eq; eapply lookup_lt_Some; exact Hl|].
  repeat split; try reflexivity. exact Hc.
Qed.

Lemma consume_queue_item_success_witness :
  let r := consume_queue_item Scenario.wall_clock Scenario.two_retries
             MoreScenario.ready_queue in
  fst r = Ok true /\
  exists q', send_queue (snd r) !! 1%nat = Some q' /\
             consumed q' = true /\ consumed_time q' = Some 1000.
Proof.
  destruct (@consume_queue_item_success StubManager stub_manager
              Scenario.wall_clock Scenario.two_retries MoreScenario.ready_queue
              1%nat (MoreScenario.waiting 2 9 200) Delivered
              ltac:(reflexivity) ltac:(reflexivity))
    as (Hok & _ & q' & Hl & Hc & Ht & _).
  split; [exact Hok|]. exists q'. split; [exact Hl|]. split; [exact Hc | exact Ht].
Defined.

(** X18. A call of [consume_queue_item] that answers [True] has handled
    one row that was unconsumed and uncompleted: no such row had a higher
    priority, nor the same priority and an earlier creation time; every
    other row of the queue is as it was. *)
Theorem consume_queue_item_takes_best
  {Mgr : Type} `{AsyncTransferManager Mgr}
  (clock : nat -> Z) (server_settings : Settings) (s : State Mgr) :
  fst (consume_queue_item clock server_settings s) = Ok true ->
  exists i q,
    send_queue s !! i = Some q /\ pending q = true /\
    (forall j q', send_queue s !! j = Some q' -> pending q' = true ->
       priority q' <= priority q /\
       (priority q' = priority q -> created_time q <= created_time q')) /\
    (forall j, j <> i ->
       send_queue (snd (consume_queue_item clock server_settings s)) !! j
       = send_queue s !! j) /\
    length (send_queue (snd (consume_queue_item clock server_settings s)))
    = length (send_queue s).
Proof.
  destruct (consume_shape clock server_settings s)
    as [[_ Hrun]|(i & q & q' & outs & n & Hrow & Hl & Hp & Hrun & _)];
    rewrite Hrun; cbn [fst snd]; [discriminate|]. intros _.
  exists i, q. split; [exact Hl|]. split; [exact Hp|]. split.
  - intros j q2 Hj Hp2.
    pose proof (first_row_best _ _ Hrow (j, q2) (rows_where_all pending _ j q2 Hj Hp2))
      as Hbest.
    cbn [snd] in Hbest. apply not_true_iff_false in Hbest.
    rewrite before_iff in Hbest. lia.
  - cbn [send_queue]. split; [|apply length_insert].
    intros j Hne. apply list_lookup_insert_ne. congruence.
Qed.

Lemma consume_queue_item_takes_best_witness :
  exists i q,
    send_queue MoreScenario.ready_queue !! i = Some q /\
    (forall j q', send_queue MoreScenario.ready_queue !! j = Some q' ->
       pending q' = true -> priority q' <= priority q).
Proof.
  destruct (@consume_queue_item_takes_best StubManager stub_manager
              Scenario.wall_clock Scenario.two_retries MoreScenario.ready_queue
              ltac:(reflexivity))
    as (i & q & Hl & _ & Hbest & _).
  exists i, q. split; [exact Hl|].
  intros j q' Hj Hp. exact (proj1 (Hbest j q' Hj Hp)).
Defined.

(** X19. Whatever happens in a call of [consume_queue_item], every row of
    the queue is still there afterwards with the same id, priority,
    destination and children; its retries have not gone down and have
    gone up by at most one; and a row that was already consumed or
    completed is exactly as it was. *)
Theorem consume_queue_item_keeps_rows
  {Mgr : Type} `{AsyncTransferManager Mgr}
  (clock : nat -> Z) (server_settings : Settings) (s : State Mgr)
  (j : nat) (q : SendQueue Mgr) :
  send_queue s !! j = Some q ->
  exists q',
    send_queue (snd (consume_queue_item clock server_settings s)) !! j = Some q' /\
    sq_id q' = sq_id q /\ priority q' = priority q /\
    created_time q' = created_time q /\
    destination q' = destination q /\ transfers q' = transfers q /\
    retries q <= retries q' <= retries q + 1 /\
    (pending q = false -> q' = q).
Proof.
  intros Hj.
  destruct (consume_shape clock server_settings s)
    as [[_ Hrun]|(i & q0 & q' & outs & n & Hrow & Hl & Hp & Hrun & Hcases)];
    rewrite Hrun; cbn [fst snd send_queue].
  - exists q. split; [exact Hj|]. repeat split; try reflexivity; lia.
  - destruct (decide (j = i)) as [->|Hne].
    + rewrite Hl in Hj. injection Hj as <-.
      exists q'. split; [apply list_lookup_insert_eq; eapply lookup_lt_Some; exact Hl|].
      destruct Hcases as [(t & m & ->)|[[-> _]| ->]]; cbn;
        (repeat split; try reflexivity; try lia; intros Hc; congruence).
    + exists q. rewrite list_lookup_insert_ne by congruence.
      split; [exact Hj|]. repeat split; try reflexivity; lia.
Qed.

Lemma consume_queue_item_keeps_rows_witness :
  exists q',
    send_queue (snd (consume_queue_item Scenario.wall_clock Scenario.two_retries
                       Scenario.stuck_queue)) !! 0%nat = Some q' /\
    0 <= retries q' <= 1.
Proof.
  destruct (@consume_queue_item_keeps_rows StubManager stub_manager
              Scenario.wall_clock Scenario.two_retries Scenario.stuck_queue 0%nat
              _ ltac:(reflexivity))
    as (q' & Hl & _ & _ & _ & _ & _ & Hr & _).
  exists q'. split; [exact Hl | exact Hr].
Defined.


Section CheckLoop.

Context {Mgr : Type} `{AsyncTransferManager Mgr}.
Variable clock : nat -> Z.

Lemma check_loop_late (timeout_after : Z) (cs : TransferStatus)
  (i : nat) (q : SendQueue Mgr) (rest : list (nat * SendQueue Mgr)) (s : State Mgr) :
  timeout_after < clock (reads s) ->
  check_loop clock timeout_after cs ((i, q) :: rest) s = (Ok false, ticked s).
Proof.
  intros Hlate. cbn [check_loop]. unfold bind at 1, now at 1.
  destruct (Z.ltb_spec timeout_after (clock (reads s))); [reflexivity|lia].
Qed.

(** The body of the loop changes neither the queue nor the count of
    clock readings, whatever it meets. *)
Lemma check_item_keeps_queue (cs : TransferStatus) (q : SendQueue Mgr) (s : State Mgr) :
  send_queue (snd (check_item cs q s)) = send_queue s /\
  reads (snd (check_item cs q s)) = reads s.
Proof.
  unfold check_item.
  destruct (transfer_status (async_transfer_manager q)).
  - split; reflexivity.
  - unfold bind, on_journal, log_to_database, modify, ret. cbn. split; reflexivity.
  - unfold bind, on_journal, log_to_database, modify, ret. cbn. split; reflexivity.
  - destruct (decide (cs = STAGED)) as [->|Hcs]; [|split; reflexivity].
    unfold try_except, bind, update_transfer_status, bind, gets.
    destruct (List.find _ (librarians s)) as [l|].
    + destruct (reachable l).
      * rewrite QueuesFacts.for_each_alter. split; reflexivity.
      * split; reflexivity.
    + split; reflexivity.
  - unfold bind, fail_transfer. rewrite QueuesFacts.for_each_alter. split; reflexivity.
  - unfold bind, on_journal, log_to_database, modify, ret. cbn. split; reflexivity.
Qed.

(** One round of the loop: the round ends the loop, or the loop goes on
    with the queue as it was or with the row marked completed. *)
Lemma check_loop_round (timeout_after : Z) (cs : TransferStatus)
  (i : nat) (q : SendQueue Mgr) (rest : list (nat * SendQueue Mgr)) (s : State Mgr) :
  (exists r s', check_loop clock timeout_after cs ((i, q) :: rest) s = (r, s') /\
                send_queue s' = send_queue s) \/
  (exists s', check_loop clock timeout_after cs ((i, q) :: rest) s
              = check_loop clock timeout_after cs rest s' /\
              (send_queue s' = send_queue s \/
               exists t, send_queue s' = <[i := set_completed q t]> (send_queue s))).
Proof.
  destruct (Z.ltb_spec timeout_after (clock (reads s))) as [Hlate|Hok].
  - left. rewrite check_loop_late by exact Hlate. eauto.
  - rewrite (QueuesFacts.check_loop_head clock timeout_after cs i q rest s Hok).
    destruct (check_item_keeps_queue cs q (ticked s)) as [Hq _].
    destruct (check_item cs q (ticked s)) as [[[|]|e] s'] eqn:Hitem; cbn [snd] in Hq.
    + right. exists s'. split; [reflexivity|]. left. exact Hq.
    + right. eexists. split; [reflexivity|]. right. cbn [send_queue].
      rewrite Hq. eauto.
    + left. exists (Raise e), s'. split; [reflexivity | exact Hq].
Qed.

Lemma check_loop_only_completes (timeout_after : Z) (cs : TransferStatus)
  (init : list (SendQueue Mgr)) (items : list (nat * SendQueue Mgr)) :
  (forall i q, In (i, q) items -> init !! i = Some q /\ in_flight q = true) ->
  forall s,
    Forall2 same_or_completed init (send_queue s) ->
    Forall2 same_or_completed init
      (send_queue (snd (check_loop clock timeout_after cs items s))).
Proof.
  induction items as [|[i q] rest IH]; intros Hitems s Hrel; [exact Hrel|].
  assert (Hrest : forall i' q', In (i', q') rest ->
                    init !! i' = Some q' /\ in_flight q' = true).
  { intros i' q' Hin. apply Hitems. right. exact Hin. }
  destruct (check_loop_round timeout_after cs i q rest s)
    as [(r & s' & -> & Hq)|(s' & -> & [Hq|[t Hq]])].
  - cbn [snd]. rewrite Hq. exact Hrel.
  - apply (IH Hrest). rewrite Hq. exact Hrel.
  - apply (IH Hrest). rewrite Hq.
    destruct (Hitems i q ltac:(left; reflexivity)) as [Hi Hf].
    rewrite <- (list_insert_id init i q Hi).
    apply Forall2_insert; [exact Hrel|].
    right. unfold in_flight in Hf. apply andb_true_iff in Hf. destruct Hf as [Hc Hd].
    apply negb_true_iff in Hd. eauto.
Qed.

End CheckLoop.

(** X20. [check_on_consumed] answers [False] without touching a row when
    no row is consumed and not yet completed (it does not even read the
    clock), and when such rows exist but the deadline has passed at its
    first look at the clock. *)
Theorem check_on_consumed_returns_false
  {Mgr : Type} `{AsyncTransferManager Mgr}
  (clock : nat -> Z) (timeout_after : Z) (cs : TransferStatus) (s : State Mgr) :
  ((forall q, In q (send_queue s) -> in_flight q = false) ->
   check_on_consumed clock timeout_after cs s = (Ok false, s)) /\
  ((exists q, In q (send_queue s) /\ in_flight q = true) ->
   timeout_after < clock (reads s) ->
   check_on_consumed clock timeout_after cs s = (Ok false, ticked s)).
Proof.
  unfold check_on_consumed, bind, gets. split.
  - intros Hall. apply (rows_where_empty in_flight) in Hall. rewrite Hall. reflexivity.
  - intros (q & Hin & Hf) Hlate.
    destruct (rows_where in_flight (send_queue s)) as [|[i q0] rest] eqn:Hrows.
    + pose proof (proj1 (rows_where_empty in_flight (send_queue s)) Hrows q Hin).
      congruence.
    + apply check_loop_late. exact Hlate.
Qed.

(** X21. When the loop of [check_on_consumed] reaches, before the
    deadline, an item whose probe says INITIATED, it goes on to the next
    item and has changed nothing (whatever the configured status); when
    the probe says something other than INITIATED, COMPLETED or FAILED,
    it logs one WARNING of category TRANSFER, leaves the row as it is and
    goes on. *)
Theorem check_on_consumed_skips
  {Mgr : Type} `{AsyncTransferManager Mgr}
  (clock : nat -> Z) (timeout_after : Z) (cs : TransferStatus)
  (i : nat) (q : SendQueue Mgr) (rest : list (nat * SendQueue Mgr)) (s : State Mgr) :
  clock (reads s) <= timeout_after ->
  (transfer_status (async_transfer_manager q) = INITIATED ->
   check_loop clock timeout_after cs ((i, q) :: rest) s
   = check_loop clock timeout_after cs rest (ticked s)) /\
  (transfer_status (async_transfer_manager q) <> INITIATED ->
   transfer_status (async_transfer_manager q) <> COMPLETED ->
   transfer_status (async_transfer_manager q) <> FAILED ->
   let text := msg_incompatible q (transfer_status (async_transfer_manager q)) in
   check_loop clock timeout_after cs ((i, q) :: rest) s
   = check_loop clock timeout_after cs rest
       (mkState (send_queue s) (outgoing s) (librarians s)
          (mkJournal (lines (journal s) ++ [(WARNING, text)])
             (errors (journal s) ++ [new_error SevWARNING TRANSFER text]))
          (S (reads s)))).
Proof.
  intros Hok. rewrite (QueuesFacts.check_loop_head clock timeout_after cs i q rest s Hok).
  unfold check_item. split.
  - intros ->. reflexivity.
  - intros H1 H2 H3.
    destruct (transfer_status (async_transfer_manager q)); try contradiction;
      reflexivity.
Qed.

Lemma check_on_consumed_skips_witness :
  Scenario.wall_clock 0 <= 5000 /\
  check_loop Scenario.wall_clock 5000 STAGED
    [(0%nat, mkSendQueue 1 5 100 "karoo" [11; 12] NeverSends true (Some 900) false None 0
               false)]
    Scenario.stuck_queue
  = (Ok true, ticked Scenario.stuck_queue).
Proof.
  split; [vm_compute; discriminate|].
  destruct (@check_on_consumed_skips StubManager stub_manager Scenario.wall_clock 5000
              STAGED 0%nat
              (mkSendQueue 1 5 100 "karoo" [11; 12] NeverSends true (Some 900) false None 0
                 false)
              [] Scenario.stuck_queue ltac:(vm_compute; discriminate)) as [Hinit _].
  rewrite Hinit by reflexivity. reflexivity.
Defined.

(** X22. When the loop of [check_on_consumed] reaches, before the
    deadline, an item whose probe says FAILED, the row is marked
    completed at the next reading of the clock and the loop goes on; the
    [failed] flag of the row, its retries and its [consumed] flag are not
    touched, and nothing is logged. *)
Theorem check_on_consumed_failed_batch
  {Mgr : Type} `{AsyncTransferManager Mgr}
  (clock : nat -> Z) (timeout_after : Z) (cs : TransferStatus)
  (i : nat) (q : SendQueue Mgr) (rest : list (nat * SendQueue Mgr)) (s : State Mgr) :
  clock (reads s) <= timeout_after ->
  transfer_status (async_transfer_manager q) = FAILED ->
  exists outs q',
    check_loop clock timeout_after cs ((i, q) :: rest) s
    = check_loop clock timeout_after cs rest
        (mkState (<[i := q']> (send_queue s)) outs (librarians s) (journal s)
           (S (S (reads s)))) /\
    completed q' = true /\ completed_time q' = Some (clock (S (reads s))) /\
    failed q' = failed q /\ retries q' = retries q /\ consumed q' = consumed q.
Proof.
  intros Hok Hprobe.
  rewrite (QueuesFacts.check_loop_head clock timeout_after cs i q rest s Hok).
  unfold check_item. rewrite Hprobe.
  unfold bind, fail_transfer. rewrite QueuesFacts.for_each_alter.
  cbn [ret send_queue outgoing librarians journal reads ticked].
  eexists _, (set_completed q (clock (S (reads s)))).
  split; [reflexivity|]. repeat split.
Qed.

Lemma check_on_consumed_failed_batch_witness :
  let r := check_on_consumed Scenario.wall_clock 5000 STAGED MoreScenario.lost_queue in
  fst r = Ok true /\
  (fun q' => (completed q', failed q', retries q')) <$> send_queue (snd r) !! 0%nat
    = Some (true, false, 1).
Proof.
  destruct (@check_on_consumed_failed_batch MoreScenario.LostManager
              MoreScenario.lost_manager Scenario.wall_clock 5000 STAGED 0%nat
              MoreScenario.lost_item [] MoreScenario.lost_queue
              ltac:(vm_compute; discriminate) ltac:(reflexivity))
    as (outs & q' & Hrun & Hc & _ & Hf & Hr & _).
  assert (Hstart : check_on_consumed Scenario.wall_clock 5000 STAGED MoreScenario.lost_queue
                   = check_loop Scenario.wall_clock 5000 STAGED
                       [(0%nat, MoreScenario.lost_item)] MoreScenario.lost_queue)
    by reflexivity.
  cbn zeta. rewrite Hstart, Hrun. cbn [check_loop ret fst snd send_queue].
  split; [reflexivity|].
  cbn. rewrite Hc, Hf, Hr. reflexivity.
Defined.

(** X23. Through a whole run of [check_on_consumed], however it ends,
    the queue keeps its rows, and each row is either exactly as it was or
    was consumed and not completed and is now marked completed: the run
    never changes the retries, the [consumed] or [failed] flag, the
    manager or the children of a row, and never completes a row that was
    not consumed. *)
Theorem check_on_consumed_only_completes
  {Mgr : Type} `{AsyncTransferManager Mgr}
  (clock : nat -> Z) (timeout_after : Z) (cs : TransferStatus) (s : State Mgr) :
  Forall2 same_or_completed (send_queue s)
    (send_queue (snd (check_on_consumed clock timeout_after cs s))).
Proof.
  assert (Hrefl : Forall2 same_or_completed (send_queue s) (send_queue s)).
  { apply Forall2_same_length_lookup_2; [reflexivity|].
    intros j x y Hx Hy. left. congruence. }
  unfold check_on_consumed, bind, gets.
  destruct (rows_where in_flight (send_queue s)) as [|x rest] eqn:Hrows; [exact Hrefl|].
  apply check_loop_only_completes; [|exact Hrefl].
  intros i q Hin. rewrite <- Hrows in Hin.
  apply QueuesFacts.rows_where_lookup in Hin. exact Hin.
Qed.

Section Termination.

Context {Mgr : Type} `{AsyncTransferManager Mgr}.
Variable clock : nat -> Z.
Variable server_settings : Settings.

Lemma sum_insert_less {A} (f : A -> nat) (l : list A) (i : nat) (x y : A) :
  l !! i = Some x -> (f y < f x)%nat ->
  (sum_list (f <$> <[i:=y]> l) < sum_list (f <$> l))%nat.
Proof.
  revert i. induction l as [|a l IH]; intros i Hl Hlt; [discriminate|].
  destruct i as [|i]; simpl in Hl |- *.
  - injection Hl as ->. apply Nat.add_lt_mono_r. exact Hlt.
  - apply Nat.add_lt_mono_l. exact (IH i Hl Hlt).
Qed.

(** A call that handled a row leaves less work. *)
Lemma consume_decreases (s : State Mgr) :
  fst (consume_queue_item clock server_settings s) = Ok true ->
  (work_left server_settings
     (send_queue (snd (consume_queue_item clock server_settings s)))
   < work_left server_settings (send_queue s))%nat.
Proof.
  destruct (consume_shape clock server_settings s)
    as [[_ Hrun]|(i & q & q' & outs & n & Hrow & Hl & Hp & Hrun & Hcases)];
    rewrite Hrun; cbn [fst snd send_queue]; [discriminate|]. intros _.
  unfold work_left. apply (sum_insert_less _ _ i q q' Hl).
  unfold attempts_left. rewrite Hp.
  destruct Hcases as [(t & m & ->)|[[-> Hle]| ->]].
  - unfold pending. cbn. rewrite andb_false_r. lia.
  - unfold pending in *. cbn [add_retry completed consumed retries]. rewrite Hp. lia.
  - unfold pending. cbn. lia.
Qed.

Lemma consume_while_ends (fuel : nat) (timeout_after : Z) :
  forall s : State Mgr,
    (work_left server_settings (send_queue s) < fuel)%nat ->
    fst (consume_while clock server_settings fuel timeout_after s) = Ok true.
Proof.
  induction fuel as [|fuel IH]; intros s Hwork; [lia|].
  cbn [consume_while]. unfold bind at 1, now at 1.
  destruct (clock (reads s) <=? timeout_after); [|reflexivity].
  unfold bind at 1.
  pose proof (consume_decreases (ticked s)) as Hdec.
  destruct (consume_shape clock server_settings (ticked s))
    as [[_ Hrun]|(i & q & q' & outs & n & _ & _ & _ & Hrun & _)].
  - fold (ticked s). rewrite Hrun. reflexivity.
  - fold (ticked s). rewrite Hrun in Hdec |- *. cbn [negb].
    apply IH. specialize (Hdec eq_refl). cbn [snd ticked send_queue] in Hdec |- *.
    lia.
Qed.

End Termination.

(** X24. The loop of [ConsumeQueue.core] is controlled by the retries:
    every round that handles a row uses up one of the attempts the queue
    has left (one per unconsumed, uncompleted row, plus its remaining
    retries), so the loop ends, by the deadline or on an empty queue,
    within one round more than that number. *)
Theorem consume_queue_core_ends
  {Mgr : Type} `{AsyncTransferManager Mgr}
  (clock : nat -> Z) (server_settings : Settings)
  (fuel : nat) (soft_timeout : option Z) (s : State Mgr) :
  (work_left server_settings (send_queue s) < fuel)%nat ->
  fst (ConsumeQueue_core clock server_settings fuel soft_timeout s) = Ok true.
Proof.
  intros Hwork. unfold ConsumeQueue_core, bind, now.
  apply consume_while_ends. exact Hwork.
Qed.

Lemma consume_queue_core_ends_witness :
  work_left Scenario.two_retries (send_queue Scenario.stuck_queue) = 3%nat /\
  fst (ConsumeQueue_core Scenario.wall_clock Scenario.two_retries 4 None
         Scenario.stuck_queue) = Ok true.
Proof.
  split; [reflexivity|].
  apply (@consume_queue_core_ends StubManager stub_manager).
  vm_compute. lia.
Defined.

End QueuesMore.

(** ** More on incoming clones *)

Module RecieveCloneMore.

Import Logger RecieveClone CloneProgress.

Section WithStore.

Context {D : Type} `{StoreManager D}.
Variable clock : nat -> Z.
Variable self : Task.

Lemma store_of_some (t : IncomingTransfer) (s : State D) (k : Z) (st : StoreMetadata D) :
  store_of t s = Some (k, st) <-> store t = Some k /\ stores s !! k = Some st.
Proof.
  unfold store_of. destruct (store t) as [k'|]; [|split; [discriminate|intros [? _]; discriminate]].
  destruct (stores s !! k') as [st'|] eqn:Hst; cbn; split.
  - intros [= <- <-]. split; [reflexivity | exact Hst].
  - intros [[= <-] H']. rewrite Hst in H'. injection H' as <-. reflexivity.
  - discriminate.
  - intros [[= <-] H']. rewrite Hst in H'. discriminate.
Qed.

Lemma core_body_no_store (s : State D) (i : nat) (t : IncomingTransfer) :
  store_of t s = None ->
  core_body clock self i t s
  = (Ok false, set_journal (logged SevCRITICAL PROGRAMMING (msg_no_store t) (journal s)) s).
Proof.
  intros Hnone. unfold core_body, bind, gets. rewrite Hnone. reflexivity.
Qed.

Lemma core_body_unreadable (s : State D) (i : nat) (t : IncomingTransfer)
  (k : Z) (st : StoreMetadata D) (m : string) :
  store_of t s = Some (k, st) ->
  path_info (store_manager st) (staging_path t) = Raise (TypeError m) ->
  core_body clock self i t s
  = (Ok false,
     set_journal (logged SevERROR DATA_AVAILABILITY (msg_no_info t) (journal s)) s).
Proof.
  intros Hst Hinfo. unfold core_body, bind, gets. rewrite Hst, Hinfo. reflexivity.
Qed.

Lemma core_body_raises (s : State D) (i : nat) (t : IncomingTransfer)
  (k : Z) (st : StoreMetadata D) (e : exn) :
  store_of t s = Some (k, st) ->
  path_info (store_manager st) (staging_path t) = Raise e ->
  (forall m, e <> TypeError m) ->
  core_body clock self i t s = (Raise e, s).
Proof.
  intros Hst Hinfo Hne. unfold core_body, bind, gets. rewrite Hst, Hinfo.
  destruct e; try reflexivity. exfalso. eapply Hne. reflexivity.
Qed.

Lemma core_body_commit_failed (s : State D) (i : nat) (t : IncomingTransfer)
  (k : Z) (st : StoreMetadata D) (info : PathInfo) (e : exn) :
  store_of t s = Some (k, st) ->
  path_info (store_manager st) (staging_path t) = Ok info ->
  md5 info = transfer_checksum t ->
  size info = transfer_size t ->
  commit (store_manager st) (staging_path t) (store_path t) = Raise e ->
  core_body clock self i t s
  = (Ok false,
     set_journal
       (mkJournal (lines (journal s) ++ [(INFO, msg_completed t);
                                         (ERROR, msg_move_failed t st e)])
          (errors (journal s))) s).
Proof.
  intros Hst Hinfo Hmd5 Hsize Hcommit. unfold core_body, bind, gets.
  rewrite Hst, Hinfo, Hmd5, Hsize, String.eqb_refl, Z.eqb_refl. cbn [andb].
  unfold logger_info at 1, modify. rewrite Hcommit.
  unfold logger_error, modify, ret, set_journal, log.
  cbn [incoming stores files instances next_instance_id librarians journal posts
       store_calls reads lines errors].
  rewrite <- app_assoc. reflexivity.
Qed.

End WithStore.

(** X25. A pass of [core] over a table without ONGOING transfer writes
    the one line "No ongoing transfers to process.", answers [True] and
    changes nothing else. *)
Theorem core_nothing_ongoing {D : Type} `{StoreManager D}
  (clock : nat -> Z) (self : Task) (s : State D) :
  (forall t, In t (incoming s) -> status t <> ONGOING) ->
  core clock self s
  = (Ok true, set_journal (log INFO "No ongoing transfers to process." (journal s)) s).
Proof.
  intros Hnone. unfold core, bind at 1, gets.
  assert (Hempty : List.filter (fun x : nat * IncomingTransfer =>
                                  bool_decide (status (snd x) = ONGOING))
                     (imap pair (incoming s)) = []).
  { apply SearchMore.filter_none_in. intros [i t] Hin.
    apply list_elem_of_In, elem_of_lookup_imap in Hin.
    destruct Hin as (j & y & [= -> ->] & Hl).
    apply bool_decide_eq_false. apply Hnone.
    apply list_elem_of_In, list_elem_of_lookup. eauto. }
  rewrite Hempty. reflexivity.
Qed.

Lemma core_nothing_ongoing_witness :
  core Scenario.wall_clock default_task
    (snd (core Scenario.wall_clock default_task (Scenario.receiving 100)))
  = (Ok true,
     set_journal
       (log INFO "No ongoing transfers to process."
          (journal (snd (core Scenario.wall_clock default_task (Scenario.receiving 100)))))
       (snd (core Scenario.wall_clock default_task (Scenario.receiving 100)))).
Proof.
  apply (@core_nothing_ongoing LocalDisk local_store).
  intros t Hin. vm_compute in Hin. destruct Hin as [<-|[]]. discriminate.
Defined.

(** X26. A transfer that cannot be examined is skipped, and the pass will
    answer [False]: when it names no store (or a store that is not in the
    catalog) a CRITICAL error of category PROGRAMMING is recorded; when
    [path_info] raises [TypeError] an ERROR of category
    DATA_AVAILABILITY is recorded; nothing else changes. Any other
    exception of [path_info] is not caught: the pass ends with it and the
    transfers after this one are not looked at. *)
Theorem core_skips_unexaminable {D : Type} `{StoreManager D}
  (clock : nat -> Z) (self : Task) (s : State D) (i : nat) (t : IncomingTransfer)
  (rest : list (nat * IncomingTransfer)) (flag : bool) :
  (store_of t s = None ->
   core_loop clock self ((i, t) :: rest) flag s
   = core_loop clock self rest false
       (set_journal (logged SevCRITICAL PROGRAMMING (msg_no_store t) (journal s)) s)) /\
  (forall k st m,
     store_of t s = Some (k, st) ->
     path_info (store_manager st) (staging_path t) = Raise (TypeError m) ->
     core_loop clock self ((i, t) :: rest) flag s
     = core_loop clock self rest false
         (set_journal (logged SevERROR DATA_AVAILABILITY (msg_no_info t) (journal s)) s)) /\
  (forall k st e,
     store_of t s = Some (k, st) ->
     path_info (store_manager st) (staging_path t) = Raise e ->
     (forall m, e <> TypeError m) ->
     core_loop clock self ((i, t) :: rest) flag s = (Raise e, s)).
Proof.
  split; [|split].
  - intros Hnone. cbn [core_loop]. unfold bind.
    rewrite core_body_no_store by exact Hnone. rewrite andb_false_r. reflexivity.
  - intros k st m Hst Hinfo. cbn [core_loop]. unfold bind.
    rewrite (core_body_unreadable clock self s i t k st m Hst Hinfo).
    rewrite andb_false_r. reflexivity.
  - intros k st e Hst Hinfo Hne. cbn [core_loop]. unfold bind.
    rewrite (core_body_raises clock self s i t k st e Hst Hinfo Hne). reflexivity.
Qed.

(** X27. When the commit to the store fails, the transfer is left as it
    is: two lines are logged (the transfer has completed; the move
    failed), no error row is recorded, no file or instance row is
    created, the store sees no call, and the pass will answer
    [False]. *)
Theorem core_commit_failure {D : Type} `{StoreManager D}
  (clock : nat -> Z) (self : Task) (s : State D) (i : nat) (t : IncomingTransfer)
  (k : Z) (st : StoreMetadata D) (info : PathInfo) (e : exn) :
  store_of t s = Some (k, st) ->
  path_info (store_manager st) (staging_path t) = Ok info ->
  md5 info = transfer_checksum t ->
  size info = transfer_size t ->
  commit (store_manager st) (staging_path t) (store_path t) = Raise e ->
  let r := core_body clock self i t s in
  fst r = Ok false /\
  incoming (snd r) = incoming s /\ files (snd r) = files s /\
  instances (snd r) = instances s /\ stores (snd r) = stores s /\
  store_calls (snd r) = store_calls s /\ posts (snd r) = posts s /\
  errors (journal (snd r)) = errors (journal s) /\
  lines (journal (snd r))
  = (lines (journal s) ++ [(INFO, msg_completed t); (ERROR, msg_move_failed t st e)])%list.
Proof.
  intros Hst Hinfo Hmd5 Hsize Hcommit. cbn zeta.
  rewrite (core_body_commit_failed clock self s i t k st info e Hst Hinfo Hmd5 Hsize Hcommit).
  repeat split.
Qed.

Lemma core_commit_failure_witness :
  let r := core Scenario.wall_clock default_task MoreScenario.full in
  fst r = Ok false /\
  incoming (snd r) = incoming MoreScenario.full /\
  files (snd r) = [] /\ instances (snd r) = [].
Proof.
  assert (Hbody : core Scenario.wall_clock default_task MoreScenario.full
                  = core_body Scenario.wall_clock default_task 0%nat (Scenario.clone 100)
                      MoreScenario.full).
  { rewrite (RecieveCloneFacts.core_single Scenario.wall_clock default_task
               MoreScenario.full (Scenario.clone 100)); reflexivity. }
  destruct (@core_commit_failure MoreScenario.FullDisk MoreScenario.full_store
              Scenario.wall_clock default_task MoreScenario.full 0%nat (Scenario.clone 100)
              1 (mkStoreMetadata "pot-a" MoreScenario.Full)
              (mkPathInfo "/staging/zen.uv" "0cc175b9c0f1b6a831c399e269772661" 100)
              (StoreError "no space left on device")
              ltac:(reflexivity) ltac:(reflexivity) ltac:(reflexivity)
              ltac:(reflexivity) ltac:(reflexivity))
    as (Hok & Hin & Hf & Hx & _).
  cbn zeta. rewrite Hbody. split; [exact Hok|]. split; [exact Hin|].
  split; [exact Hf | exact Hx].
Defined.



Section Progress.

Context {D : Type} `{StoreManager D}.
Variable clock : nat -> Z.
Variable self : Task.

(** What the body of the loop may do to the tables, in every case. *)
Lemma core_body_shape (s : State D) (i : nat) (t : IncomingTransfer) :
  let s' := snd (core_body clock self i t s) in
  (incoming s' = incoming s /\ files s' = files s /\ instances s' = instances s) \/
  (exists f x,
     incoming s' = <[i := complete t (clock (reads s))]> (incoming s) /\
     files s' = (files s ++ [f])%list /\ instances s' = (instances s ++ [x])%list /\
     inst_file x = file_name f).
Proof.
  cbn zeta.
  destruct (store_of t s) as [[k st]|] eqn:Hst.
  2:{ rewrite core_body_no_store by exact Hst. left. repeat split. }
  destruct (path_info (store_manager st) (staging_path t)) as [info|e] eqn:Hinfo.
  2:{ destruct (match e with TypeError _ => true | _ => false end) eqn:Hkind.
      - destruct e; try discriminate.
        rewrite (core_body_unreadable clock self s i t k st _ Hst Hinfo).
        left. repeat split.
      - rewrite (core_body_raises clock self s i t k st e Hst Hinfo).
        + left. repeat split.
        + intros m ->. discriminate. }
  apply store_of_some in Hst. destruct Hst as [Hk Hrow].
  destruct (String.eqb_spec (md5 info) (transfer_checksum t)) as [Hmd5|Hmd5].
  2:{ rewrite (RecieveCloneFacts.core_body_mismatch clock self s i t k st info Hk Hrow Hinfo)
        by (left; exact Hmd5).
      left. repeat split. }
  destruct (Z.eqb_spec (size info) (transfer_size t)) as [Hsize|Hsize].
  2:{ rewrite (RecieveCloneFacts.core_body_mismatch clock self s i t k st info Hk Hrow Hinfo)
        by (right; exact Hsize).
      left. repeat split. }
  destruct (commit (store_manager st) (staging_path t) (store_path t)) as [d|e] eqn:Hcommit.
  - destruct (RecieveCloneFacts.core_body_match clock self s i t k st info d
                Hk Hrow Hinfo Hmd5 Hsize Hcommit) as (j & ps & ->).
    right. eexists _, _. cbn [snd incoming files instances].
    split; [reflexivity|]. split; [reflexivity|]. split; reflexivity.
  - rewrite (core_body_commit_failed clock self s i t k st info e
               (proj2 (store_of_some t s k st) (conj Hk Hrow)) Hinfo Hmd5 Hsize Hcommit).
    left. repeat split.
Qed.

Lemma core_loop_progress (init : list IncomingTransfer)
  (items : list (nat * IncomingTransfer)) :
  (forall i t, In (i, t) items -> init !! i = Some t /\ status t = ONGOING) ->
  forall (s : State D) (flag : bool),
    Forall2 same_or_received init (incoming s) ->
    let s' := snd (core_loop clock self items flag s) in
    Forall2 same_or_received init (incoming s') /\
    exists fs xs,
      files s' = (files s ++ fs)%list /\ instances s' = (instances s ++ xs)%list /\
      file_name <$> fs = inst_file <$> xs.
Proof.
  induction items as [|[i t] rest IH]; intros Hitems s flag Hrel.
  - cbn. split; [exact Hrel|]. exists [], []. rewrite !app_nil_r. repeat split.
  - assert (Hrest : forall i' t', In (i', t') rest ->
                      init !! i' = Some t' /\ status t' = ONGOING).
    { intros i' t' Hin. apply Hitems. right. exact Hin. }
    destruct (Hitems i t ltac:(left; reflexivity)) as [Hi Hong].
    pose proof (core_body_shape s i t) as Hshape. cbn zeta in Hshape.
    cbn [core_loop]. unfold bind.
    destruct (core_body clock self i t s) as [[ok|e] s1]; cbn [snd] in Hshape.
    + assert (Hrel1 : Forall2 same_or_received init (incoming s1)).
      { destruct Hshape as [(Hin & _ & _)|(f & x & Hin & _)]; rewrite Hin; [exact Hrel|].
        rewrite <- (list_insert_id init i t Hi).
        apply Forall2_insert; [exact Hrel|]. right. eauto. }
      destruct (IH Hrest s1 (flag && ok) Hrel1) as (Hfinal & fs & xs & Hf & Hx & Hn).
      split; [exact Hfinal|].
      destruct Hshape as [(_ & Hf1 & Hx1)|(f & x & _ & Hf1 & Hx1 & Hn1)].
      * exists fs, xs. rewrite Hf, Hx, Hf1, Hx1. repeat split. exact Hn.
      * exists (f :: fs), (x :: xs). rewrite Hf, Hx, Hf1, Hx1, <- !app_assoc.
        repeat split. cbn. rewrite Hn, Hn1. reflexivity.
    + cbn [snd]. destruct Hshape as [(Hin & Hf1 & Hx1)|(f & x & Hin & Hf1 & Hx1 & Hn1)].
      * rewrite Hin. split; [exact Hrel|]. exists [], []. rewrite Hf1, Hx1, !app_nil_r.
        repeat split.
      * split.
        -- rewrite Hin. rewrite <- (list_insert_id init i t Hi).
           apply Forall2_insert; [exact Hrel|]. right. eauto.
        -- exists [f], [x]. rewrite Hf1, Hx1. repeat split. cbn. rewrite Hn1. reflexivity.
Qed.

End Progress.

(** X29. Through a whole pass of [core], however it ends, the table of
    incoming transfers keeps its rows, and each row is either exactly as
    it was or was ONGOING and is now COMPLETED with an end time (a
    transfer in any other state is never touched); file and instance
    rows are only ever added, at the end of their tables and in step:
    each new instance refers to the new file of the same rank. *)
Theorem core_only_receives {D : Type} `{StoreManager D}
  (clock : nat -> Z) (self : Task) (s : State D) :
  let s' := snd (core clock self s) in
  Forall2 same_or_received (incoming s) (incoming s') /\
  exists fs xs,
    files s' = (files s ++ fs)%list /\ instances s' = (instances s ++ xs)%list /\
    file_name <$> fs = inst_file <$> xs.
Proof.
  cbn zeta.
  set (items := List.filter (fun x => bool_decide (status (snd x) = ONGOING))
                  (imap pair (incoming s))).
  assert (Hitems : forall i t, In (i, t) items ->
                     incoming s !! i = Some t /\ status t = ONGOING).
  { intros i t Hin. subst items. apply filter_In in Hin. destruct Hin as [Hin Hst].
    apply bool_decide_eq_true in Hst.
    apply list_elem_of_In, elem_of_lookup_imap in Hin.
    destruct Hin as (j & y & [= -> ->] & Hl). split; [exact Hl | exact Hst]. }
  assert (Hstart : exists s0, core clock self s = core_loop clock self items true s0 /\
                     incoming s0 = incoming s /\ files s0 = files s /\
                     instances s0 = instances s).
  { unfold core, bind, gets. fold items.
    destruct (Nat.eqb (length items) 0); eexists; (split; [reflexivity|]); repeat split. }
  destruct Hstart as (s0 & -> & Hi0 & Hf0 & Hx0).
  assert (Hrefl : Forall2 same_or_received (incoming s) (incoming s0)).
  { rewrite Hi0. apply Forall2_same_length_lookup_2; [reflexivity|].
    intros j x y Hx Hy. left. congruence. }
  destruct (core_loop_progress clock self (incoming s) items Hitems s0 true Hrefl)
    as (Hfinal & fs & xs & Hf & Hx & Hn).
  split; [exact Hfinal|]. exists fs, xs. rewrite Hf, Hx, Hf0, Hx0. repeat split. exact Hn.
Qed.

End RecieveCloneMore.

(** ** More on the instance endpoint *)

Module InstancesApiMore.

Import Logger InstancesApi.

Lemma session_get_false (c : InstanceClass) (k : Z) (s : State) :
  session_get c k s = false ->
  match c with
  | InstanceT => delete k (instances s) = instances s
  | RemoteInstanceT => delete k (remote_instances s) = remote_instances s
  end.
Proof.
  destruct c; cbn [session_get]; intros Hget; apply bool_decide_eq_false in Hget;
    apply delete_id, eq_None_not_Some; exact Hget.
Qed.

(** What a call does to the two tables, and what it answers. *)
Lemma delete_remote_instance_tables
  (request : InstanceAdministrationDeleteRequest) (username : string)
  (response : Response) (s : State) :
  exists resp call s',
    delete_remote_instance request username response s = (Ok (resp, call), s') /\
    instances s'
    = (if String.eqb (instance_type request) "local"
       then delete (instance_id request) (instances s) else instances s) /\
    remote_instances s'
    = (if String.eqb (instance_type request) "remote"
       then delete (instance_id request) (remote_instances s) else remote_instances s) /\
    (keyword "success" call = Some (PyBool true) ->
     (instance_type request = "local" /\ is_Some (instances s !! instance_id request)) \/
     (instance_type request = "remote" /\
      is_Some (remote_instances s !! instance_id request))).
Proof.
  unfold delete_remote_instance, bind, log_info, log_error, modify, gets.
  destruct (String.eqb_spec (instance_type request) "local") as [Hl|Hl].
  - rewrite Hl. change (String.eqb "local" "remote") with false.
    destruct (session_get InstanceT (instance_id request) _) eqn:Hget; cbn [negb].
    + unfold session_delete, modify, ret. do 3 eexists. split; [reflexivity|].
      cbn [instances remote_instances]. repeat split.
      intros _. left. split; [reflexivity|].
      cbn [session_get instances] in Hget. apply bool_decide_eq_true in Hget. exact Hget.
    + apply session_get_false in Hget. cbn [instances] in Hget.
      unfold ret. do 3 eexists. split; [reflexivity|].
      cbn [instances remote_instances]. rewrite Hget. repeat split. discriminate.
  - destruct (String.eqb_spec (instance_type request) "remote") as [Hr|Hr].
    + destruct (session_get RemoteInstanceT (instance_id request) _) eqn:Hget; cbn [negb].
      * unfold session_delete, modify, ret. do 3 eexists. split; [reflexivity|].
        cbn [instances remote_instances]. repeat split.
        intros _. right. split; [exact Hr|].
        cbn [session_get remote_instances] in Hget. apply bool_decide_eq_true in Hget.
        exact Hget.
      * apply session_get_false in Hget. cbn [remote_instances] in Hget.
        unfold ret. do 3 eexists. split; [reflexivity|].
        cbn [instances remote_instances]. rewrite Hget. repeat split. discriminate.
    + unfold ret. do 3 eexists. split; [reflexivity|].
      cbn [instances remote_instances]. repeat split. discriminate.
Qed.

(** X30. The endpoint named [delete_remote_instance] deletes from the
    table its [instance_type] names: for "local" the row of that id goes
    from the table of local instances and the remote ones are untouched,
    for "remote" it is the other way round, and for any other type both
    tables are as before; no row with another id is ever removed. This
    holds however the call ends. A reply with [success=True] is only
    given when the row was there. Asked the same again right after, the
    endpoint changes neither table, and a reply it gives does not say
    [success=True]. *)
Theorem delete_instance_dispatch
  (request : InstanceAdministrationDeleteRequest) (username : string)
  (response : Response) (s : State) :
  let r := delete_remote_instance request username response s in
  instances (snd r)
  = (if String.eqb (instance_type request) "local"
     then delete (instance_id request) (instances s) else instances s) /\
  remote_instances (snd r)
  = (if String.eqb (instance_type request) "remote"
     then delete (instance_id request) (remote_instances s) else remote_instances s) /\
  (forall k, k <> instance_id request ->
     instances (snd r) !! k = instances s !! k /\
     remote_instances (snd r) !! k = remote_instances s !! k) /\
  (forall resp call,
     fst r = Ok (resp, call) ->
     keyword "success" call = Some (PyBool true) ->
     (instance_type request = "local" /\ is_Some (instances s !! instance_id request)) \/
     (instance_type request = "remote" /\
      is_Some (remote_instances s !! instance_id request))) /\
  forall username' response',
    let r' := delete_remote_instance request username' response' (snd r) in
    instances (snd r') = instances (snd r) /\
    remote_instances (snd r') = remote_instances (snd r) /\
    forall resp' call',
      fst r' = Ok (resp', call') -> keyword "success" call' <> Some (PyBool true).
Proof.
  cbn zeta.
  destruct (delete_remote_instance_tables request username response s)
    as (resp & call & s' & Hrun & Hloc & Hrem & Hans).
  rewrite Hrun. cbn [fst snd].
  split; [exact Hloc|]. split; [exact Hrem|]. split; [|split].
  - intros k Hk. rewrite Hloc, Hrem.
    split; [destruct (String.eqb _ "local") | destruct (String.eqb _ "remote")];
      try reflexivity; apply lookup_delete_ne; congruence.
  - intros resp0 call0 [= <- <-]. exact Hans.
  - intros username' response'.
    destruct (delete_remote_instance_tables request username' response' s')
      as (resp' & call' & s'' & Hrun' & Hloc' & Hrem' & Hans').
    rewrite Hrun'. cbn [fst snd]. rewrite Hloc', Hrem'. split; [|split].
    + rewrite Hloc. destruct (String.eqb _ "local"); [|reflexivity].
      apply delete_id, lookup_delete_eq.
    + rewrite Hrem. destruct (String.eqb _ "remote"); [|reflexivity].
      apply delete_id, lookup_delete_eq.
    + intros resp0 call0 [= <- <-] Hyes.
      destruct (Hans' Hyes) as [[Ht [x Hx]]|[Ht [x Hx]]].
      * rewrite Hloc, Ht in Hx. change (String.eqb "local" "local") with true in Hx.
        cbv beta iota in Hx. rewrite lookup_delete_eq in Hx. discriminate.
      * rewrite Hrem, Ht in Hx. change (String.eqb "remote" "remote") with true in Hx.
        cbv beta iota in Hx. rewrite lookup_delete_eq in Hx. discriminate.
Qed.

End InstancesApiMore.
